(** * The event-port watcher of watchman ([watcher/portfs.cpp])

    A shallow embedding of [PortFSWatcher::do_watch] and
    [PortFSWatcher::consumeNotify], the two operations that maintain the
    map of watched paths ([port_files]) and feed the pending collection.

    The functions run under the watcher's mutex; every call is modelled
    as one atomic transformation of the machine state.  Whatever the
    operating system decides (whether an allocation succeeds, what
    [port_associate] and [port_getn] answer) is an explicit input of the
    call. *)

From Stdlib Require Import ZArith Lia.
From stdpp Require Import gmap strings list fin_maps.

(** ** Constants of the headers

    [<port.h>], [<errno.h>] and [watchman.h] are not part of the
    translated file; their constants are the fields of a class, so that
    every statement below holds for any values they may have. *)

Class Headers := {
  FILE_ACCESS : Z;
  FILE_MODIFIED : Z;
  FILE_ATTRIB : Z;
  FILE_NOFOLLOW : Z;
  FILE_DELETE : Z;
  FILE_RENAME_TO : Z;
  FILE_RENAME_FROM : Z;
  UNMOUNTED : Z;
  MOUNTEDOVER : Z;
  PORT_SOURCE_FILE : Z;
  EINTR : Z;
  WATCHMAN_BATCH_LIMIT : nat;
  W_PENDING_RECURSIVE : Z;
  W_PENDING_VIA_NOTIFY : Z
}.

(** The values of illumos and of watchman's own header, used to run the
    model on concrete inputs. *)
Definition illumos : Headers := {|
  FILE_ACCESS := 0x1;
  FILE_MODIFIED := 0x2;
  FILE_ATTRIB := 0x4;
  FILE_NOFOLLOW := 0x10000000;
  FILE_DELETE := 0x10;
  FILE_RENAME_TO := 0x20;
  FILE_RENAME_FROM := 0x40;
  UNMOUNTED := 0x20000000;
  MOUNTEDOVER := 0x40000000;
  PORT_SOURCE_FILE := 7;
  EINTR := 4;
  WATCHMAN_BATCH_LIMIT := N.to_nat 16384;
  W_PENDING_RECURSIVE := 1;
  W_PENDING_VIA_NOTIFY := 2
|}.

(** ** Data *)

Record timespec := { ts_sec : Z; ts_nsec : Z }.
Record timeval := { tv_sec : Z; tv_usec : Z }.

(** The three time stamps of [struct stat] that [make_port_file] reads. *)
Record stat := { st_atim : timespec; st_mtim : timespec; st_ctim : timespec }.

Record file_obj_t := {
  fo_atime : timespec;
  fo_mtime : timespec;
  fo_ctime : timespec;
  fo_name : string
}.

(** [w_string_t] is an immutable byte string; reference counts are not
    modelled. *)
Record watchman_port_file := {
  port_file : file_obj_t;
  name : string
}.

(** [port_event_t]: [portev_events] is an [int], [portev_user] the cookie
    given to [port_associate], which is the address of the
    [watchman_port_file]; the model stores the object it points to. *)
Record port_event_t := {
  portev_events : Z;
  portev_user : watchman_port_file
}.

(** An automatic variable of C: declared without initialiser it holds an
    indeterminate value until something is assigned to it. *)
Inductive auto (A : Type) :=
  | Indeterminate
  | Assigned (a : A).
Arguments Indeterminate {A}.
Arguments Assigned {A} a.

(** One call of [w_pending_coll_add]: the path, the time stamp and the
    flags it was given. *)
Record watchman_pending_fs := {
  path : string;
  now : auto timeval;
  flags : Z
}.

Record w_root_t := {
  root_path : string;
  cancelled : bool
}.

Record PortFSWatcher := {
  port_fd : Z;
  port_files : gmap string watchman_port_file;
  portevents : list port_event_t
}.

Inductive log_level := W_LOG_FATAL | W_LOG_ERR | W_LOG_DBG.

(** The format strings of the file, with their arguments. *)
Inductive log_line :=
  | Log_watching (n : string)
  | Log_port_associate (fo : string) (err : Z)
  | Log_port_getn_error (err : Z)
  | Log_port_getn (n : nat)
  | Log_port (fo : string) (pe : Z)
  | Log_root_moved (rp : string) (pe : Z).

(** The calls made to the event port. *)
Inductive syscall :=
  | Sys_port_associate (fd source : Z) (obj : file_obj_t) (events : Z)
      (user : watchman_port_file)
  | Sys_port_getn (fd : Z) (max : nat) (nget : nat).

(** Everything a call can read or change. [coll] is the sequence of
    pushes the pending collection has received, oldest first. *)
Record machine := {
  watcher : PortFSWatcher;
  root : w_root_t;
  coll : list watchman_pending_fs;
  errno : Z;
  syscalls : list syscall;
  logs : list (log_level * log_line)
}.

(** ** Calls that return, and calls that abort the process *)

Inductive outcome (A : Type) :=
  | Returned (a : A) (s : machine)
  | Aborted (s : machine).
Arguments Returned {A} a s.
Arguments Aborted {A} s.

Definition M (A : Type) : Type := machine → outcome A.

#[export] Instance M_ret : MRet M := λ A a s, Returned a s.
#[export] Instance M_bind : MBind M := λ A B f c s,
  match c s with
  | Returned a s' => f a s'
  | Aborted s' => Aborted s'
  end.

Definition gets {A} (f : machine → A) : M A := λ s, Returned (f s) s.
Definition modify (f : machine → machine) : M unit := λ s, Returned tt (f s).

Definition with_watcher (w : PortFSWatcher) (s : machine) : machine :=
  {| watcher := w; root := root s; coll := coll s; errno := errno s;
     syscalls := syscalls s; logs := logs s |}.
Definition with_root (r : w_root_t) (s : machine) : machine :=
  {| watcher := watcher s; root := r; coll := coll s; errno := errno s;
     syscalls := syscalls s; logs := logs s |}.
Definition with_coll (c : list watchman_pending_fs) (s : machine) : machine :=
  {| watcher := watcher s; root := root s; coll := c; errno := errno s;
     syscalls := syscalls s; logs := logs s |}.
Definition with_errno (e : Z) (s : machine) : machine :=
  {| watcher := watcher s; root := root s; coll := coll s; errno := e;
     syscalls := syscalls s; logs := logs s |}.
Definition with_syscalls (c : list syscall) (s : machine) : machine :=
  {| watcher := watcher s; root := root s; coll := coll s; errno := errno s;
     syscalls := c; logs := logs s |}.
Definition with_logs (l : list (log_level * log_line)) (s : machine) : machine :=
  {| watcher := watcher s; root := root s; coll := coll s; errno := errno s;
     syscalls := syscalls s; logs := l |}.

Definition with_port_files (m : gmap string watchman_port_file)
    (w : PortFSWatcher) : PortFSWatcher :=
  {| port_fd := port_fd w; port_files := m; portevents := portevents w |}.
Definition with_portevents (l : list port_event_t)
    (w : PortFSWatcher) : PortFSWatcher :=
  {| port_fd := port_fd w; port_files := port_files w; portevents := l |}.

(** ** Helpers of watchman that the file calls *)

(** Modelled from the spec: [w_log], whose body is in watchman's log
    module.  A line is appended to the log; at [W_LOG_FATAL] the error is
    unrecoverable and the process does not continue (section 4.2, "fatal,
    logged with the OS error"; section 7, "the loop terminates"). *)
Definition w_log (lvl : log_level) (l : log_line) : M unit := λ s,
  let s' := with_logs (logs s ++ [(lvl, l)]) s in
  match lvl with
  | W_LOG_FATAL => Aborted s'
  | _ => Returned tt s'
  end.

(** Modelled from the spec: [w_root_cancel], whose body is in watchman's
    root module.  The transition Active -> Cancelled is one-way
    (section 3, Watch Root State). *)
Definition w_root_cancel : M unit :=
  modify (λ s, with_root {| root_path := root_path (root s); cancelled := true |} s).

(** Modelled from the spec: [w_pending_coll_add], whose body is in
    watchman's pending module.  The collection is kept as the sequence of
    pushes it received (section 4.4 merges them by path on top of
    that). *)
Definition w_pending_coll_add (p : string) (t : auto timeval) (fl : Z) : M unit :=
  modify (λ s, with_coll (coll s ++ [{| path := p; now := t; flags := fl |}]) s).

(** [w_string_equal]: equality is byte-exact. *)
Definition w_string_equal (a b : string) : bool := String.eqb a b.

(** The hash table [w_ht_t] keyed by path is a finite map.  [w_ht_set]
    does not replace an existing key, and fails when it cannot allocate
    the new bucket ([room = false]). *)
Definition w_ht_get (m : gmap string watchman_port_file) (k : string) :
    option watchman_port_file := m !! k.

Definition w_ht_set (room : bool) (m : gmap string watchman_port_file)
    (k : string) (v : watchman_port_file) :
    bool * gmap string watchman_port_file :=
  match m !! k with
  | Some _ => (false, m)
  | None => if room then (true, <[k := v]> m) else (false, m)
  end.

Definition w_ht_del (m : gmap string watchman_port_file) (k : string) :
    gmap string watchman_port_file := delete k m.

Definition ht_get (k : string) : M (option watchman_port_file) :=
  gets (λ s, w_ht_get (port_files (watcher s)) k).

Definition ht_set (room : bool) (k : string) (v : watchman_port_file) : M bool := λ s,
  let '(ok, m) := w_ht_set room (port_files (watcher s)) k v in
  Returned ok (with_watcher (with_port_files m (watcher s)) s).

Definition ht_del (k : string) : M unit :=
  modify (λ s,
    with_watcher (with_port_files (w_ht_del (port_files (watcher s)) k) (watcher s)) s).

(** ** The event port

    What the kernel answers is an input of the call: for
    [port_associate] the return value and the error number it sets when
    it fails; for [port_getn] either an error number or the events that
    are queued on the port, of which the call hands out at most [max],
    writing them to the front of the caller's array and their number to
    [n]. *)

Definition port_associate (ret err : Z) (fd source : Z) (obj : file_obj_t)
    (events : Z) (user : watchman_port_file) : M Z := λ s,
  let s1 := with_syscalls (syscalls s ++ [Sys_port_associate fd source obj events user]) s in
  Returned ret (if decide (ret = 0%Z) then s1 else with_errno err s1).

Inductive getn_answer :=
  | Getn_events (queue : list port_event_t)
  | Getn_error (err : Z).

Definition port_getn (ans : getn_answer) (fd : Z) (max : nat) (n : nat) :
    M (Z * nat) := λ s,
  let s1 := with_syscalls (syscalls s ++ [Sys_port_getn fd max n]) s in
  match ans with
  | Getn_error err => Returned ((-1)%Z, n) (with_errno err s1)
  | Getn_events queue =>
      let got := take max queue in
      let arr := got ++ drop (length got) (portevents (watcher s1)) in
      Returned (0%Z, length got) (with_watcher (with_portevents arr (watcher s1)) s1)
  end.

(** ** The translated functions *)

Section Portfs.
Context `{H : Headers}.

Definition WATCHMAN_PORT_EVENTS : Z :=
  Z.lor (Z.lor FILE_MODIFIED FILE_ATTRIB) FILE_NOFOLLOW.

(** The labels of the event bits, used for the debug lines only. *)
Definition pflags : list (Z * string) :=
  [(FILE_ACCESS, "FILE_ACCESS");
   (FILE_MODIFIED, "FILE_MODIFIED");
   (FILE_ATTRIB, "FILE_ATTRIB");
   (FILE_DELETE, "FILE_DELETE");
   (FILE_RENAME_TO, "FILE_RENAME_TO");
   (FILE_RENAME_FROM, "FILE_RENAME_FROM");
   (UNMOUNTED, "UNMOUNTED");
   (MOUNTEDOVER, "MOUNTEDOVER")].

(** [calloc] may fail, which is the first input of [make_port_file]. *)
Definition make_port_file (calloc_ok : bool) (nm : string) (st : stat) :
    option watchman_port_file :=
  if calloc_ok then
    Some {| name := nm;
            port_file := {| fo_name := nm;
                            fo_atime := st_atim st;
                            fo_mtime := st_mtim st;
                            fo_ctime := st_ctim st |} |}
  else None.

(** What the environment decides during one [do_watch]. *)
Record arm_env := {
  calloc_ok : bool;
  ht_room : bool;
  associate_ret : Z;
  associate_errno : Z
}.

Definition do_watch (env : arm_env) (nm : string) (st : stat) : M bool :=
  found ← ht_get nm;
  if found is Some _ then
    (* Already watching it *)
    mret true
  else
    match make_port_file (calloc_ok env) nm st with
    | None => mret false
    | Some f =>
        ok ← ht_set (ht_room env) nm f;
        if negb ok then mret false
        else
          w_log W_LOG_DBG (Log_watching nm);;
          modify (with_errno 0);;
          fd ← gets (λ s, port_fd (watcher s));
          rc ← port_associate (associate_ret env) (associate_errno env)
                 fd PORT_SOURCE_FILE (port_file f) WATCHMAN_PORT_EVENTS f;
          if decide (rc ≠ 0%Z) then
            e ← gets errno;
            w_log W_LOG_ERR (Log_port_associate (fo_name (port_file f)) e);;
            ht_del nm;;
            mret false
          else mret true
    end.

(** [uint32_t pe = portevents[i].portev_events]. *)
Definition to_uint32 (x : Z) : Z := (x mod 2 ^ 32)%Z.

Definition ROOT_LOSS_EVENTS : Z :=
  Z.lor (Z.lor (Z.lor FILE_RENAME_FROM UNMOUNTED) MOUNTEDOVER) FILE_DELETE.

(** The condition of the [if] in the loop of [consumeNotify]. *)
Definition root_lost (rp : string) (ev : port_event_t) : bool :=
  negb (Z.land (to_uint32 (portev_events ev)) ROOT_LOSS_EVENTS =? 0)%Z
  && w_string_equal (name (portev_user ev)) rp.

Definition PENDING_FLAGS : Z := Z.lor W_PENDING_RECURSIVE W_PENDING_VIA_NOTIFY.

(** The body of [for (i = 0; i < n; i++)], over the entries
    [portevents[0..n-1]] in order. *)
Fixpoint consume_loop (t : auto timeval) (evs : list port_event_t) : M bool :=
  match evs with
  | [] => mret true
  | ev :: rest =>
      let pe := to_uint32 (portev_events ev) in
      let f := portev_user ev in
      w_log W_LOG_DBG (Log_port (fo_name (port_file f)) pe);;
      rp ← gets (λ s, root_path (root s));
      if root_lost rp ev then
        w_log W_LOG_ERR (Log_root_moved rp pe);;
        w_root_cancel;;
        mret false
      else
        w_pending_coll_add (name f) t PENDING_FLAGS;;
        (* It was port_dissociate'd implicitly. *)
        ht_del (name f);;
        consume_loop t rest
  end.

(** Lines 241 to 283: what follows the call of [port_getn]. *)
Definition consume_retrieved (t : auto timeval) (n : nat) : M bool :=
  w_log W_LOG_DBG (Log_port_getn n);;
  if decide (n = 0) then mret false
  else
    evs ← gets (λ s, take n (portevents (watcher s)));
    consume_loop t evs.

Definition consumeNotify (ans : getn_answer) : M bool :=
  (* struct timeval now; *)
  let t : auto timeval := Indeterminate in
  modify (with_errno 0);;
  fd ← gets (λ s, port_fd (watcher s));
  r ← port_getn ans fd WATCHMAN_BATCH_LIMIT 1;
  if decide (r.1 ≠ 0%Z) then
    e ← gets errno;
    if decide (e = EINTR) then mret false
    else
      w_log W_LOG_FATAL (Log_port_getn_error e);;
      consume_retrieved t r.2
  else consume_retrieved t r.2.

(** ** Vocabulary of the statements *)

(** The record that one iteration pushes for its event. *)
Definition pending_of (t : auto timeval) (ev : port_event_t) : watchman_pending_fs :=
  {| path := name (portev_user ev); now := t; flags := PENDING_FLAGS |}.

(** The debug line that opens every iteration of the loop. *)
Definition log_port (ev : port_event_t) : log_level * log_line :=
  (W_LOG_DBG,
   Log_port (fo_name (port_file (portev_user ev))) (to_uint32 (portev_events ev))).

(** The events in front of the first one that loses the root. *)
Fixpoint processed (rp : string) (evs : list port_event_t) : list port_event_t :=
  match evs with
  | [] => []
  | ev :: rest => if root_lost rp ev then [] else ev :: processed rp rest
  end.

Fixpoint loop_logs (rp : string) (evs : list port_event_t) :
    list (log_level * log_line) :=
  match evs with
  | [] => []
  | ev :: rest =>
      log_port ev ::
      (if root_lost rp ev
       then [(W_LOG_ERR, Log_root_moved rp (to_uint32 (portev_events ev)))]
       else loop_logs rp rest)
  end.

(** [port_files] once the entries of the given events are deleted. *)
Definition forget (m : gmap string watchman_port_file) (evs : list port_event_t) :
    gmap string watchman_port_file :=
  foldl (λ m ev, w_ht_del m (name (portev_user ev))) m evs.

(** The events that one [port_getn] hands out. *)
Definition retrieved (ans : getn_answer) : list port_event_t :=
  match ans with
  | Getn_events queue => take WATCHMAN_BATCH_LIMIT queue
  | Getn_error _ => []
  end.

(** The state in which the loop leaves the machine. *)
Definition after_loop (t : auto timeval) (evs : list port_event_t) (s : machine) :
    machine :=
  let rp := root_path (root s) in
  {| watcher := with_port_files (forget (port_files (watcher s)) (processed rp evs))
                  (watcher s);
     root := if existsb (root_lost rp) evs
             then {| root_path := rp; cancelled := true |} else root s;
     coll := coll s ++ map (pending_of t) (processed rp evs);
     errno := errno s;
     syscalls := syscalls s;
     logs := logs s ++ loop_logs rp evs |}.

(** The state once [port_getn] has handed out the front of the queue and
    the debug line with [n] is written. *)
Definition after_getn (queue : list port_event_t) (s : machine) : machine :=
  let got := take WATCHMAN_BATCH_LIMIT queue in
  {| watcher := with_portevents (got ++ drop (length got) (portevents (watcher s)))
                  (watcher s);
     root := root s;
     coll := coll s;
     errno := 0%Z;
     syscalls := syscalls s ++
       [Sys_port_getn (port_fd (watcher s)) WATCHMAN_BATCH_LIMIT 1];
     logs := logs s ++ [(W_LOG_DBG, Log_port_getn (length got))] |}.

(** The call [do_watch] makes to the port for the token [f]. *)
Definition associate_call (s : machine) (f : watchman_port_file) : syscall :=
  Sys_port_associate (port_fd (watcher s)) PORT_SOURCE_FILE (port_file f)
    WATCHMAN_PORT_EVENTS f.

(** A flag word has a flag when all bits of the flag are set in it. *)
Definition has_flag (fl flag : Z) : Prop := Z.land fl flag = flag.

End Portfs.

(** The number of loop iterations a log shows: the lines "port: ...". *)
Definition is_log_port (l : log_level * log_line) : bool :=
  match l.2 with Log_port _ _ => true | _ => false end.

Definition iterations (l : list (log_level * log_line)) : nat :=
  length (filter (λ x, is_log_port x = true) l).

(** The number of entries the registry holds for a path. *)
Definition entries_for (nm : string) (m : gmap string watchman_port_file) : nat :=
  length (filter (λ kv, kv.1 = nm) (map_to_list m)).

Definition final {A} (o : outcome A) : machine :=
  match o with Returned _ s => s | Aborted s => s end.

Definition result {A} (o : outcome A) : option A :=
  match o with Returned a _ => Some a | Aborted _ => None end.

(** ** Concrete inputs *)

Definition ex_stat : stat :=
  {| st_atim := {| ts_sec := 1700000000; ts_nsec := 0 |};
     st_mtim := {| ts_sec := 1700000001; ts_nsec := 500 |};
     st_ctim := {| ts_sec := 1700000001; ts_nsec := 500 |} |}.

Definition ex_file (nm : string) : watchman_port_file :=
  {| name := nm;
     port_file := {| fo_name := nm;
                     fo_atime := st_atim ex_stat;
                     fo_mtime := st_mtim ex_stat;
                     fo_ctime := st_ctim ex_stat |} |}.

Definition ex_event (bits : Z) (nm : string) : port_event_t :=
  {| portev_events := bits; portev_user := ex_file nm |}.

(** The root ["/root"] is watched together with two of its files. *)
Definition ex_machine : machine :=
  {| watcher := {| port_fd := 3;
                   port_files := <["/root" := ex_file "/root"]>
                                   (<["/root/a" := ex_file "/root/a"]>
                                      (<["/root/b" := ex_file "/root/b"]> ∅));
                   portevents := [] |};
     root := {| root_path := "/root"; cancelled := false |};
     coll := [];
     errno := 0;
     syscalls := [];
     logs := [] |}.

(** The token or the bucket cannot be allocated. *)
Definition ex_env_nomem : arm_env :=
  {| calloc_ok := false; ht_room := true; associate_ret := 0; associate_errno := 0 |}.

(** The token is allocated, the table cannot take it. *)
Definition ex_env_noroom : arm_env :=
  {| calloc_ok := true; ht_room := false; associate_ret := 0; associate_errno := 0 |}.

(** Nothing is watched yet. *)
Definition ex_idle : machine :=
  {| watcher := {| port_fd := 3; port_files := ∅; portevents := [] |};
     root := {| root_path := "/root"; cancelled := false |};
     coll := [];
     errno := 0;
     syscalls := [];
     logs := [] |}.

Definition ex_env_ok : arm_env :=
  {| calloc_ok := true; ht_room := true; associate_ret := 0; associate_errno := 0 |}.

(** [port_associate] answers -1 with [ENOENT]. *)
Definition ex_env_enoent : arm_env :=
  {| calloc_ok := true; ht_room := true; associate_ret := -1; associate_errno := 2 |}.

(** ** Set-up, tear-down, files and directories

    The remaining functions of the file: [initNew], the destructor,
    [startWatchFile] and [startWatchDir].  They call into the rest of
    watchman and into the C library; these calls are recorded, in order,
    in a trace beside the machine.  The trace tells that and how
    [handle_open_errno] and [w_root_schedule_recrawl] are called; what
    they then do to the root is outside the translated file and is not
    modelled. *)

Module Tree.

(** What the functions read of [struct watchman_dir] and of
    [struct watchman_file]. *)
Record watchman_dir := { path : string }.
Record watchman_file := { parent : watchman_dir; name : string; st : stat }.

End Tree.

(** The two string helpers are not part of the translated file; the
    functions are modelled for any path join and any way to compute the
    full path of a directory. *)
Class Strings := {
  w_string_path_cat : string → string → string;
  w_dir_copy_full_path : Tree.watchman_dir → string
}.

(** Paths joined with a slash, used to run the model. *)
Definition slash_paths : Strings := {|
  w_string_path_cat := λ p n, (p +:+ "/" +:+ n);
  w_dir_copy_full_path := Tree.path
|}.

(** The text that [initNew] stores in [*errmsg]. *)
Inductive errmsg_text :=
  | Err_out_of_memory
  | Err_port_create (rp : string) (err : Z).

Inductive host_log :=
  | Log_errmsg (m : errmsg_text)
  | Log_fstat_failed (p : string) (err : Z).

Inductive host_call :=
  | Call_pthread_mutex_init
  | Call_w_ht_new (hint : Z)
  | Call_port_create
  | Call_w_set_cloexec (fd : Z)
  | Call_close (fd : Z)
  | Call_w_ht_free
  | Call_pthread_mutex_destroy
  | Call_w_dir_open (p : string)
  | Call_handle_open_errno (dir : Tree.watchman_dir) (t : timeval)
      (what : string) (err : Z)
  | Call_fstat (osdir : Z)
  | Call_w_root_schedule_recrawl (why : string)
  | Call_w_dir_close (osdir : Z)
  | Call_w_log (lvl : log_level) (l : host_log).

Record host := {
  mach : machine;
  trace : list host_call
}.

Inductive houtcome (A : Type) :=
  | HReturned (a : A) (h : host)
  | HAborted (h : host).
Arguments HReturned {A} a h.
Arguments HAborted {A} h.

Definition HM (A : Type) : Type := host → houtcome A.

#[export] Instance HM_ret : MRet HM := λ A a h, HReturned a h.
#[export] Instance HM_bind : MBind HM := λ A B f c h,
  match c h with
  | HReturned a h' => f a h'
  | HAborted h' => HAborted h'
  end.

(** A call of a function of the watcher, which leaves the trace alone. *)
Definition lift {A} (c : M A) : HM A := λ h,
  match c (mach h) with
  | Returned a s => HReturned a {| mach := s; trace := trace h |}
  | Aborted s => HAborted {| mach := s; trace := trace h |}
  end.

Definition call (c : host_call) : HM unit := λ h,
  HReturned tt {| mach := mach h; trace := trace h ++ [c] |}.

(** [w_log] for the lines of these functions; see [w_log] above.  Their
    lines are kept in the trace, in the order of the calls, and not in
    [logs]. *)
Definition host_w_log (lvl : log_level) (l : host_log) : HM unit := λ h,
  let h' := {| mach := mach h; trace := trace h ++ [Call_w_log lvl l] |} in
  match lvl with
  | W_LOG_FATAL => HAborted h'
  | _ => HReturned tt h'
  end.

Definition hfinal {A} (o : houtcome A) : host :=
  match o with HReturned _ h => h | HAborted h => h end.

Definition hresult {A} (o : houtcome A) : option A :=
  match o with HReturned a _ => Some a | HAborted _ => None end.

(** The destructor: the calls it makes for the watcher it destroys. *)
Definition PortFSWatcher_dtor (w : PortFSWatcher) : list host_call :=
  [Call_close (port_fd w); Call_w_ht_free; Call_pthread_mutex_destroy].

(** What the environment decides during [initNew]: whether the watcher
    can be allocated, the configured size hint, what [port_create]
    returns and the error number it sets, and what the fresh array of
    events happens to hold. *)
Record init_env := {
  make_unique_ok : bool;
  hint_num_dirs : Z;
  port_create_ret : Z;
  port_create_errno : Z;
  fresh_portevents : list port_event_t
}.

(** What [initNew] leaves: its return value, the text written to
    [*errmsg] if any, the watcher moved into [root->inner.watcher] if
    any, and the calls made. *)
Record init_result := {
  init_ok : bool;
  init_errmsg : option errmsg_text;
  init_watcher : option PortFSWatcher;
  init_calls : list host_call
}.

Definition initNew (env : init_env) (r : w_root_t) : init_result :=
  if negb (make_unique_ok env) then
    {| init_ok := false; init_errmsg := Some Err_out_of_memory;
       init_watcher := None; init_calls := [] |}
  else
    let calls := [Call_pthread_mutex_init; Call_w_ht_new (hint_num_dirs env);
                  Call_port_create] in
    let w := {| port_fd := port_create_ret env; port_files := ∅;
                portevents := fresh_portevents env |} in
    if decide (port_fd w = (-1)%Z) then
      let m := Err_port_create (root_path r) (port_create_errno env) in
      (* the local [unique_ptr] goes out of scope: the watcher is destroyed *)
      {| init_ok := false; init_errmsg := Some m; init_watcher := None;
         init_calls := calls ++ [Call_w_log W_LOG_ERR (Log_errmsg m)] ++
                       PortFSWatcher_dtor w |}
    else
      {| init_ok := true; init_errmsg := None; init_watcher := Some w;
         init_calls := calls ++ [Call_w_set_cloexec (port_fd w)] |}.

Section Tree_watch.
Context `{H : Headers} `{P : Strings}.

(** [name_ok] tells whether [w_string_path_cat] could allocate. *)
Definition startWatchFile (name_ok : bool) (env : arm_env)
    (file : Tree.watchman_file) : M bool :=
  if name_ok then
    let nm := w_string_path_cat (Tree.path (Tree.parent file)) (Tree.name file) in
    do_watch env nm (Tree.st file)
  else mret false.

(** What the environment decides during one [startWatchDir]: the handle
    [w_dir_open] returns or the error number it sets, the result of
    [fstat] or the error number it sets, and what [do_watch] meets. *)
Record dir_env := {
  opendir_ret : option Z;
  opendir_errno : Z;
  fstat_ret : option stat;
  fstat_errno : Z;
  dir_arm : arm_env
}.

Definition startWatchDir (env : dir_env) (dir : Tree.watchman_dir)
    (t : timeval) (p : string) : HM (option Z) :=
  call (Call_w_dir_open p);;
  match opendir_ret env with
  | None =>
      lift (modify (with_errno (opendir_errno env)));;
      e ← lift (gets errno);
      call (Call_handle_open_errno dir t "opendir" e);;
      mret None
  | Some osdir =>
      call (Call_fstat osdir);;
      match fstat_ret env with
      | None =>
          (* whaaa? *)
          lift (modify (with_errno (fstat_errno env)));;
          e ← lift (gets errno);
          host_w_log W_LOG_ERR (Log_fstat_failed p e);;
          call (Call_w_root_schedule_recrawl "fstat failed");;
          call (Call_w_dir_close osdir);;
          mret None
      | Some st =>
          let dir_name := w_dir_copy_full_path dir in
          ok ← lift (do_watch (dir_arm env) dir_name st);
          if negb ok then
            call (Call_w_dir_close osdir);;
            mret None
          else mret (Some osdir)
      end
  end.

(** ** Sequences of calls *)

Inductive op :=
  | Op_do_watch (env : arm_env) (nm : string) (st : stat)
  | Op_startWatchFile (name_ok : bool) (env : arm_env) (file : Tree.watchman_file)
  | Op_startWatchDir (env : dir_env) (dir : Tree.watchman_dir) (t : timeval)
      (p : string)
  | Op_consumeNotify (ans : getn_answer).

Definition step (o : op) : HM unit :=
  match o with
  | Op_do_watch env nm st => lift (do_watch env nm st);; mret tt
  | Op_startWatchFile name_ok env file =>
      lift (startWatchFile name_ok env file);; mret tt
  | Op_startWatchDir env dir t p => startWatchDir env dir t p;; mret tt
  | Op_consumeNotify ans => lift (consumeNotify ans);; mret tt
  end.

(** The calls one after the other; nothing runs after an abort. *)
Fixpoint run_ops (ops : list op) : HM unit :=
  match ops with
  | [] => mret tt
  | o :: rest => step o;; run_ops rest
  end.

End Tree_watch.

(** The one call that can end the process: a [consumeNotify] whose
    [port_getn] fails with an error other than EINTR. *)
Definition benign `{H : Headers} (o : op) : Prop :=
  match o with
  | Op_consumeNotify (Getn_error err) => err = EINTR
  | _ => True
  end.

(** Every entry of the registry is filed under the name its token
    carries. *)
Definition well_keyed (m : gmap string watchman_port_file) : Prop :=
  ∀ k f, m !! k = Some f → name f = k ∧ fo_name (port_file f) = k.

(** How often a trace closes the directory handle [osdir]. *)
Definition is_close (osdir : Z) (c : host_call) : bool :=
  match c with
  | Call_w_dir_close h => bool_decide (h = osdir)
  | _ => false
  end.

Definition closes_of (osdir : Z) (tr : list host_call) : nat :=
  length (filter (λ c, is_close osdir c = true) tr).

(** A fresh root with the watcher that [initNew] installed. *)
Definition boot (w : PortFSWatcher) (rp : string) : host :=
  {| mach := {| watcher := w;
                root := {| root_path := rp; cancelled := false |};
                coll := []; errno := 0; syscalls := []; logs := [] |};
     trace := [] |}.

Definition ex_init_ok : init_env :=
  {| make_unique_ok := true; hint_num_dirs := 131072; port_create_ret := 3;
     port_create_errno := 0; fresh_portevents := [] |}.

(** [port_create] answers -1 with [EMFILE]. *)
Definition ex_init_emfile : init_env :=
  {| make_unique_ok := true; hint_num_dirs := 131072; port_create_ret := -1;
     port_create_errno := 24; fresh_portevents := [] |}.

(** The watcher that [initNew] hands over under [ex_init_ok]. *)
Definition ex_watcher : PortFSWatcher :=
  {| port_fd := 3; port_files := ∅; portevents := [] |}.

(** Arm a directory and a file in it, drain the event of the file, arm
    the file again. *)
Definition ex_ops `{H : Headers} `{P : Strings} : list op :=
  [Op_startWatchDir
     {| opendir_ret := Some 7%Z; opendir_errno := 0; fstat_ret := Some ex_stat;
        fstat_errno := 0; dir_arm := ex_env_ok |}
     {| Tree.path := "/root/sub" |} {| tv_sec := 1700000002; tv_usec := 0 |}
     "/root/sub";
   Op_startWatchFile true ex_env_ok
     {| Tree.parent := {| Tree.path := "/root/sub" |}; Tree.name := "f.txt";
        Tree.st := ex_stat |};
   Op_consumeNotify (Getn_events [ex_event 0x2 "/root/sub/f.txt"]);
   Op_do_watch ex_env_ok "/root/sub/f.txt" ex_stat].

Definition ex_dir : Tree.watchman_dir := {| Tree.path := "/root/sub" |}.

Definition ex_tree_file : Tree.watchman_file :=
  {| Tree.parent := ex_dir; Tree.name := "f.txt"; Tree.st := ex_stat |}.

Definition ex_now : timeval := {| tv_sec := 1700000002; tv_usec := 0 |}.

Definition ex_dir_ok : dir_env :=
  {| opendir_ret := Some 7%Z; opendir_errno := 0; fstat_ret := Some ex_stat;
     fstat_errno := 0; dir_arm := ex_env_ok |}.


(** [w_dir_open] fails with [EACCES]. *)
Definition ex_dir_eacces : dir_env :=
  {| opendir_ret := None; opendir_errno := 13; fstat_ret := None;
     fstat_errno := 0; dir_arm := ex_env_ok |}.

(** * Properties *)

Ltac run :=
  cbv [mbind M_bind mret M_ret gets modify w_log w_root_cancel
       w_pending_coll_add ht_get ht_set ht_del port_associate port_getn
       with_watcher with_root with_coll with_errno with_syscalls with_logs
       with_port_files with_portevents].

(** Membership in a concrete list, and closed goals settled by running
    the functions. *)
Ltac in_list := apply list_elem_of_In; vm_compute; intuition.
Ltac by_running :=
  repeat match goal with |- _ ∧ _ => split end; vm_compute; reflexivity.

Section Loop.
Context `{H : Headers}.

Lemma root_lost_true rp ev :
  root_lost rp ev = true ↔
    (Z.land (to_uint32 (portev_events ev)) FILE_DELETE ≠ 0
     ∨ Z.land (to_uint32 (portev_events ev)) FILE_RENAME_FROM ≠ 0
     ∨ Z.land (to_uint32 (portev_events ev)) UNMOUNTED ≠ 0
     ∨ Z.land (to_uint32 (portev_events ev)) MOUNTEDOVER ≠ 0)%Z
    ∧ name (portev_user ev) = rp.
Proof.
  unfold root_lost, ROOT_LOSS_EVENTS, w_string_equal.
  rewrite andb_true_iff, negb_true_iff, Z.eqb_neq, String.eqb_eq.
  rewrite !Z.land_lor_distr_r, !Z.lor_eq_0_iff.
  set (a := Z.land _ FILE_DELETE). set (b := Z.land _ FILE_RENAME_FROM).
  set (c := Z.land _ UNMOUNTED). set (d := Z.land _ MOUNTEDOVER).
  destruct (decide (a = 0%Z)), (decide (b = 0%Z)), (decide (c = 0%Z)),
    (decide (d = 0%Z)); intuition congruence.
Qed.

Lemma consume_loop_eq t evs s :
  consume_loop t evs s =
    Returned (negb (existsb (root_lost (root_path (root s))) evs)) (after_loop t evs s).
Proof.
  revert s. induction evs as [|ev rest IH]; intros [[fd files arr] r c e sc lg].
  - run. unfold after_loop. cbn. by rewrite !app_nil_r.
  - cbn [consume_loop]. run. cbn.
    destruct (root_lost (root_path r) ev) eqn:E; cbn.
    + unfold after_loop. cbn. rewrite E. cbn.
      by rewrite app_nil_r, <- app_assoc.
    + rewrite IH. unfold after_loop. cbn. rewrite E. cbn.
      by rewrite <- !app_assoc.
Qed.

Lemma processed_app rp pre rest :
  Forall (λ e, root_lost rp e = false) pre →
  processed rp (pre ++ rest) = pre ++ processed rp rest.
Proof.
  induction 1 as [|e pre He _ IH]; [done|].
  cbn. by rewrite He, IH.
Qed.

Lemma processed_all rp evs :
  Forall (λ e, root_lost rp e = false) evs → processed rp evs = evs.
Proof.
  intros Hall. rewrite <- (app_nil_r evs) at 1.
  rewrite processed_app by done. apply app_nil_r.
Qed.

Lemma loop_logs_app rp pre rest :
  Forall (λ e, root_lost rp e = false) pre →
  loop_logs rp (pre ++ rest) = map log_port pre ++ loop_logs rp rest.
Proof.
  induction 1 as [|e pre He _ IH]; [done|].
  cbn. by rewrite He, IH.
Qed.

Lemma existsb_app_clean rp pre rest :
  Forall (λ e, root_lost rp e = false) pre →
  existsb (root_lost rp) (pre ++ rest) = existsb (root_lost rp) rest.
Proof.
  induction 1 as [|e pre He _ IH]; [done|].
  cbn. by rewrite He, IH.
Qed.

Lemma existsb_clean rp evs :
  Forall (λ e, root_lost rp e = false) evs → existsb (root_lost rp) evs = false.
Proof.
  intros Hall. rewrite <- (app_nil_r evs).
  by rewrite existsb_app_clean.
Qed.

(** A batch with a root-loss event splits at the first such event. *)
Lemma first_root_loss rp evs ev :
  ev ∈ evs → root_lost rp ev = true →
  ∃ pre lost post,
    evs = pre ++ lost :: post
    ∧ Forall (λ e, root_lost rp e = false) pre
    ∧ root_lost rp lost = true.
Proof.
  induction evs as [|e evs IH]; intros Hin Hev.
  - by apply elem_of_nil in Hin.
  - destruct (root_lost rp e) eqn:E.
    + by exists [], e, evs.
    + apply elem_of_cons in Hin as [->|Hin]; [congruence|].
      destruct (IH Hin Hev) as (pre & lost & post & -> & Hpre & Hlost).
      exists (e :: pre), lost, post. repeat split; [|done].
      by constructor.
Qed.

Lemma iterations_other x l : is_log_port x = false → iterations (x :: l) = iterations l.
Proof.
  intros Hx. unfold iterations. by rewrite filter_cons_False by congruence.
Qed.

Lemma iterations_loop_logs rp evs : iterations (loop_logs rp evs) ≤ length evs.
Proof.
  unfold iterations. induction evs as [|e evs IH]; [done|].
  cbn [loop_logs length]. rewrite filter_cons_True by done. cbn [length].
  destruct (root_lost rp e); [|lia].
  rewrite filter_cons_False by (cbn; congruence). cbn. lia.
Qed.

Lemma length_processed rp evs : length (processed rp evs) ≤ length evs.
Proof.
  induction evs as [|e evs IH]; [done|].
  cbn. destruct (root_lost rp e); cbn; lia.
Qed.

Lemma length_retrieved ans : length (retrieved ans) ≤ WATCHMAN_BATCH_LIMIT.
Proof.
  destruct ans as [queue|err]; cbn; [|lia].
  rewrite length_take. lia.
Qed.

Lemma has_flag_lor_l a b : has_flag (Z.lor a b) a.
Proof.
  unfold has_flag. apply Z.bits_inj'. intros n _.
  rewrite Z.land_spec, Z.lor_spec. by destruct (Z.testbit a n), (Z.testbit b n).
Qed.

Lemma has_flag_lor_r a b : has_flag (Z.lor a b) b.
Proof. rewrite Z.lor_comm. apply has_flag_lor_l. Qed.

(** *** The registry *)

Lemma forget_lookup_None (m : gmap string watchman_port_file) evs k :
  m !! k = None → forget m evs !! k = None.
Proof.
  revert m. induction evs as [|e evs IH]; intros m Hm; [done|].
  cbn. apply IH. unfold w_ht_del.
  destruct (decide (name (portev_user e) = k)) as [->|Hne].
  - apply lookup_delete_eq.
  - by rewrite lookup_delete_ne.
Qed.

Lemma forget_lookup_elem (m : gmap string watchman_port_file) evs ev :
  ev ∈ evs → forget m evs !! name (portev_user ev) = None.
Proof.
  revert m. induction evs as [|e evs IH]; intros m Hin.
  - by apply elem_of_nil in Hin.
  - cbn. apply elem_of_cons in Hin as [->|Hin]; [|by apply IH].
    apply forget_lookup_None, lookup_delete_eq.
Qed.

Lemma forget_lookup_other (m : gmap string watchman_port_file) evs k :
  Forall (λ e, name (portev_user e) ≠ k) evs → forget m evs !! k = m !! k.
Proof.
  revert m. induction evs as [|e evs IH]; intros m Hall; [done|].
  apply Forall_cons in Hall as [He Hall].
  cbn. rewrite IH by done. unfold w_ht_del. by rewrite lookup_delete_ne.
Qed.

Lemma entries_for_lookup nm (m : gmap string watchman_port_file) :
  entries_for nm m = if m !! nm is Some _ then 1 else 0.
Proof.
  unfold entries_for. induction m as [|k v m Hk IH] using map_ind.
  - by rewrite map_to_list_empty, lookup_empty.
  - rewrite map_to_list_insert by done.
    destruct (decide (k = nm)) as [->|Hne].
    + rewrite filter_cons_True by done. rewrite lookup_insert_eq.
      cbn [length]. rewrite IH, Hk. done.
    + rewrite filter_cons_False by done. rewrite lookup_insert_ne by done.
      apply IH.
Qed.

(** *** Closed forms of the two functions *)

Lemma do_watch_known env nm st s :
  is_Some (port_files (watcher s) !! nm) →
  do_watch env nm st s = Returned true s.
Proof.
  intros [f Hf]. unfold do_watch. run. unfold w_ht_get. by rewrite Hf.
Qed.

Lemma do_watch_no_memory env nm st s :
  port_files (watcher s) !! nm = None →
  calloc_ok env = false ∨ ht_room env = false →
  do_watch env nm st s = Returned false s.
Proof.
  intros Hnm Hfail. destruct s as [[fd files arr] r c e sc lg]. cbn in Hnm.
  unfold do_watch, make_port_file. run. unfold w_ht_get, w_ht_set. cbn.
  rewrite Hnm. destruct (calloc_ok env); [|done].
  cbn. rewrite Hnm. destruct Hfail as [?| ->]; done.
Qed.

Lemma do_watch_fresh env nm st s :
  port_files (watcher s) !! nm = None →
  calloc_ok env = true → ht_room env = true →
  ∃ f, make_port_file true nm st = Some f ∧
    do_watch env nm st s =
      if decide (associate_ret env ≠ 0%Z) then
        Returned false
          {| watcher := watcher s; root := root s; coll := coll s;
             errno := associate_errno env;
             syscalls := syscalls s ++ [associate_call s f];
             logs := logs s ++
               [(W_LOG_DBG, Log_watching nm);
                (W_LOG_ERR, Log_port_associate nm (associate_errno env))] |}
      else
        Returned true
          {| watcher := with_port_files (<[nm := f]> (port_files (watcher s)))
                          (watcher s);
             root := root s; coll := coll s; errno := 0%Z;
             syscalls := syscalls s ++ [associate_call s f];
             logs := logs s ++ [(W_LOG_DBG, Log_watching nm)] |}.
Proof.
  intros Hnm Hc Hr. destruct s as [[fd files arr] r c e sc lg]. cbn in Hnm.
  eexists. split; [reflexivity|].
  unfold do_watch, make_port_file, associate_call. run.
  unfold w_ht_get, w_ht_set, w_ht_del. cbn.
  rewrite Hnm, Hc. cbn. rewrite Hnm, Hr. cbn.
  repeat case_decide; try done.
  cbn. rewrite delete_insert_id by done. by rewrite <- app_assoc.
Qed.

Lemma consumeNotify_error err s :
  consumeNotify (Getn_error err) s =
    let s' := {| watcher := watcher s; root := root s; coll := coll s;
                 errno := err;
                 syscalls := syscalls s ++
                   [Sys_port_getn (port_fd (watcher s)) WATCHMAN_BATCH_LIMIT 1];
                 logs := logs s |} in
    if decide (err = EINTR) then Returned false s'
    else Aborted (with_logs (logs s ++ [(W_LOG_FATAL, Log_port_getn_error err)]) s').
Proof.
  destruct s as [[fd files arr] r c e sc lg].
  unfold consumeNotify. run. cbn.
  rewrite decide_True by done. cbn.
  destruct (decide (err = EINTR)); done.
Qed.

Lemma consumeNotify_events queue s :
  consumeNotify (Getn_events queue) s =
    let got := take WATCHMAN_BATCH_LIMIT queue in
    if decide (length got = 0) then Returned false (after_getn queue s)
    else Returned (negb (existsb (root_lost (root_path (root s))) got))
           (after_loop Indeterminate got (after_getn queue s)).
Proof.
  destruct s as [[fd files arr] r c e sc lg].
  unfold consumeNotify, consume_retrieved. run. cbn.
  rewrite decide_False by (intros ?; done). cbn.
  destruct (decide (length (take WATCHMAN_BATCH_LIMIT queue) = 0)); [done|].
  rewrite consume_loop_eq. cbn. rewrite take_app_length. done.
Qed.

End Loop.

(** * The claims *)

Section Claims.
Context `{H : Headers}.

(** What [do_watch] answers agrees with the registry it leaves. *)
Lemma do_watch_sound env nm st s :
  ∃ b s', do_watch env nm st s = Returned b s'
    ∧ (b = true ↔ is_Some (port_files (watcher s') !! nm)).
Proof.
  destruct (port_files (watcher s) !! nm) as [f|] eqn:Hnm.
  - exists true, s. split; [apply do_watch_known; by rewrite Hnm|].
    by rewrite Hnm.
  - destruct (calloc_ok env) eqn:Hc; [destruct (ht_room env) eqn:Hr|].
    + destruct (do_watch_fresh env nm st s Hnm Hc Hr) as (f & _ & ->).
      case_decide.
      * eexists false, _. split; [done|]. cbn. rewrite Hnm.
        split; [done|]. by intros [? ?].
      * eexists true, _. split; [done|]. cbn. by rewrite lookup_insert_eq.
    + exists false, s. split; [apply do_watch_no_memory; auto|].
      rewrite Hnm. split; [done|]. by intros [? ?].
    + exists false, s. split; [apply do_watch_no_memory; auto|].
      rewrite Hnm. split; [done|]. by intros [? ?].
Qed.

(** C1. When an event of the drained batch has one of FILE_DELETE,
    FILE_RENAME_FROM, UNMOUNTED, MOUNTEDOVER set and its path is the root
    path, the batch splits at the first such event: the call cancels the
    root and returns; the events in front of it have each pushed their
    record and these records stay in the collection; for the events
    behind it nothing is logged, pushed or deleted, and the port is not
    called again. *)
Theorem consumeNotify_root_loss_cancels s queue ev :
  ev ∈ retrieved (Getn_events queue) →
  (Z.land (to_uint32 (portev_events ev)) FILE_DELETE ≠ 0
   ∨ Z.land (to_uint32 (portev_events ev)) FILE_RENAME_FROM ≠ 0
   ∨ Z.land (to_uint32 (portev_events ev)) UNMOUNTED ≠ 0
   ∨ Z.land (to_uint32 (portev_events ev)) MOUNTEDOVER ≠ 0)%Z →
  name (portev_user ev) = root_path (root s) →
  ∃ pre lost post s',
    retrieved (Getn_events queue) = pre ++ lost :: post
    ∧ Forall (λ e, root_lost (root_path (root s)) e = false) pre
    ∧ root_lost (root_path (root s)) lost = true
    ∧ consumeNotify (Getn_events queue) s = Returned false s'
    ∧ root s' = {| root_path := root_path (root s); cancelled := true |}
    ∧ coll s' = coll s ++ map (pending_of Indeterminate) pre
    ∧ port_files (watcher s') = forget (port_files (watcher s)) pre
    ∧ logs s' = logs s ++
        (W_LOG_DBG, Log_port_getn (length (pre ++ lost :: post))) ::
        map log_port pre ++
        [log_port lost;
         (W_LOG_ERR,
          Log_root_moved (root_path (root s)) (to_uint32 (portev_events lost)))]
    ∧ syscalls s' = syscalls s ++
        [Sys_port_getn (port_fd (watcher s)) WATCHMAN_BATCH_LIMIT 1].
Proof.
  intros Hin Hbits Hname.
  assert (Hev : root_lost (root_path (root s)) ev = true)
    by (by apply root_lost_true).
  destruct (first_root_loss _ _ _ Hin Hev) as (pre & lost & post & Hsplit & Hpre & Hlost).
  exists pre, lost, post. eexists. split; [done|]. split; [done|]. split; [done|].
  rewrite consumeNotify_events. cbn in Hsplit. cbn zeta. rewrite Hsplit.
  rewrite decide_False by (rewrite length_app; cbn; lia).
  rewrite existsb_app_clean by done. cbn [existsb]. rewrite Hlost. cbn [orb negb].
  split; [done|].
  unfold after_loop, after_getn. cbn.
  rewrite existsb_app_clean by done. cbn [existsb]. rewrite Hlost. cbn [orb].
  rewrite processed_app by done. cbn [processed]. rewrite Hlost, app_nil_r.
  rewrite loop_logs_app by done. cbn [loop_logs]. rewrite Hlost.
  rewrite Hsplit. rewrite <- app_assoc. done.
Qed.


(** C3 (as amended). An event of the batch that the loop reaches, that
    is, no event up to and including it loses the root, pushes exactly one
    record: the collection grows by one record for each event in front of
    it, then by the record of this event, which carries the event's path
    and the flags W_PENDING_RECURSIVE and W_PENDING_VIA_NOTIFY, then by
    the records of the events behind it that are reached.  When no event
    of the batch loses the root, the call returns true and leaves the root
    as it was. *)
Theorem consumeNotify_pushes_one_record s queue pre ev post :
  retrieved (Getn_events queue) = pre ++ ev :: post →
  Forall (λ e, root_lost (root_path (root s)) e = false) pre →
  root_lost (root_path (root s)) ev = false →
  ∃ b s',
    consumeNotify (Getn_events queue) s = Returned b s'
    ∧ coll s' = coll s ++ map (pending_of Indeterminate) pre ++
        pending_of Indeterminate ev ::
        map (pending_of Indeterminate) (processed (root_path (root s)) post)
    ∧ path (pending_of Indeterminate ev) = name (portev_user ev)
    ∧ has_flag (flags (pending_of Indeterminate ev)) W_PENDING_RECURSIVE
    ∧ has_flag (flags (pending_of Indeterminate ev)) W_PENDING_VIA_NOTIFY
    ∧ (Forall (λ e, root_lost (root_path (root s)) e = false) post →
       b = true ∧ root s' = root s).
Proof.
  intros Hsplit Hpre Hev.
  rewrite consumeNotify_events. cbn in Hsplit. cbn zeta. rewrite Hsplit.
  rewrite decide_False by (rewrite length_app; cbn; lia).
  eexists _, _. split; [done|].
  split.
  { cbn. rewrite processed_app by done. cbn [processed]. rewrite Hev.
    by rewrite map_app. }
  split; [done|].
  split; [apply has_flag_lor_l|]. split; [apply has_flag_lor_r|].
  intros Hpost. rewrite existsb_app_clean by done. cbn [existsb].
  rewrite Hev, (existsb_clean _ _ Hpost). split; [done|].
  cbn. rewrite existsb_app_clean by done. cbn [existsb].
  by rewrite Hev, (existsb_clean _ _ Hpost).
Qed.

(** The records a call pushes all carry the time stamp of the local
    variable [now], to which nothing is ever assigned. *)
Lemma consumeNotify_pushes queue s :
  coll (final (consumeNotify (Getn_events queue) s)) =
    coll s ++ map (pending_of Indeterminate)
                (processed (root_path (root s)) (retrieved (Getn_events queue))).
Proof.
  rewrite consumeNotify_events. cbn zeta. case_decide as Hlen; cbn; [|done].
  apply nil_length_inv in Hlen. rewrite Hlen. cbn. by rewrite app_nil_r.
Qed.

(** C5. When [port_getn] fails with EINTR the call returns false and
    leaves the root, the registry and the collection as they were; when it
    fails with any other error the call logs at W_LOG_FATAL and does not
    return. *)
Theorem consumeNotify_getn_failure s err :
  (err = EINTR →
   ∃ s', consumeNotify (Getn_error err) s = Returned false s'
     ∧ root s' = root s
     ∧ watcher s' = watcher s
     ∧ coll s' = coll s
     ∧ logs s' = logs s)
  ∧ (err ≠ EINTR →
     ∃ s', consumeNotify (Getn_error err) s = Aborted s'
       ∧ logs s' = logs s ++ [(W_LOG_FATAL, Log_port_getn_error err)]
       ∧ root s' = root s
       ∧ watcher s' = watcher s
       ∧ coll s' = coll s).
Proof.
  rewrite consumeNotify_error. cbn zeta.
  split; intros Herr.
  - rewrite decide_True by done. eexists. by repeat split.
  - rewrite decide_False by done. eexists. by repeat split.
Qed.

(** C6. After a [do_watch] of a path has returned true, a second
    [do_watch] of the same path returns true and leaves the whole machine
    as it is (no registry change, no call to the port, no log line), and
    the registry holds exactly one entry for the path. *)
Theorem do_watch_twice env1 env2 nm st1 st2 s s1 :
  do_watch env1 nm st1 s = Returned true s1 →
  do_watch env2 nm st2 s1 = Returned true s1
  ∧ entries_for nm (port_files (watcher s1)) = 1.
Proof.
  intros Hfirst.
  destruct (do_watch_sound env1 nm st1 s) as (b & s' & Hrun & Hiff).
  rewrite Hfirst in Hrun. injection Hrun as <- <-.
  destruct Hiff as [Hsome _]. specialize (Hsome eq_refl).
  split; [by apply do_watch_known|].
  rewrite entries_for_lookup. by destruct Hsome as [f ->].
Qed.

(** C7. When [port_associate] fails for a path that was not armed, the
    entry just inserted is deleted again, so that the watcher is as before
    the call; the call returns false after the one attempt at the port and
    an error line, and touches neither the root nor the collection. *)
Theorem do_watch_associate_failure env nm st s :
  port_files (watcher s) !! nm = None →
  calloc_ok env = true →
  ht_room env = true →
  associate_ret env ≠ 0%Z →
  ∃ f s',
    make_port_file true nm st = Some f
    ∧ do_watch env nm st s = Returned false s'
    ∧ watcher s' = watcher s
    ∧ root s' = root s
    ∧ coll s' = coll s
    ∧ syscalls s' = syscalls s ++ [associate_call s f]
    ∧ logs s' = logs s ++
        [(W_LOG_DBG, Log_watching nm);
         (W_LOG_ERR, Log_port_associate nm (associate_errno env))].
Proof.
  intros Hnm Hc Hr Hret.
  destruct (do_watch_fresh env nm st s Hnm Hc Hr) as (f & Hf & ->).
  rewrite decide_True by done.
  exists f. eexists. by repeat split.
Qed.

(** C8. A call asks the port once, for at most WATCHMAN_BATCH_LIMIT
    events; it is handed at most that many, runs at most one iteration of
    its loop per event handed out, hence at most WATCHMAN_BATCH_LIMIT, and
    pushes at most that many records.  The call always comes to an end. *)
Theorem consumeNotify_batch_bound ans s :
  ∃ o new,
    consumeNotify ans s = o
    ∧ length (retrieved ans) ≤ WATCHMAN_BATCH_LIMIT
    ∧ syscalls (final o) = syscalls s ++
        [Sys_port_getn (port_fd (watcher s)) WATCHMAN_BATCH_LIMIT 1]
    ∧ logs (final o) = logs s ++ new
    ∧ iterations new ≤ length (retrieved ans)
    ∧ iterations new ≤ WATCHMAN_BATCH_LIMIT
    ∧ length (coll (final o)) ≤ length (coll s) + WATCHMAN_BATCH_LIMIT.
Proof.
  pose proof (length_retrieved ans) as Hmax.
  destruct ans as [queue|err].
  - rewrite consumeNotify_events. cbn zeta. cbn [retrieved] in *.
    set (got := take WATCHMAN_BATCH_LIMIT queue) in *.
    pose proof (iterations_loop_logs (root_path (root s)) got) as Hit.
    pose proof (length_processed (root_path (root s)) got) as Hpr.
    case_decide.
    + exists (Returned false (after_getn queue s)),
        [(W_LOG_DBG, Log_port_getn (length got))].
      split; [done|]. cbn. repeat split; try done; repeat case_decide; cbn; try done; lia.
    + eexists _, ((W_LOG_DBG, Log_port_getn (length got)) ::
                  loop_logs (root_path (root s)) got).
      split; [done|]. cbn -[iterations]. rewrite <- app_assoc. cbn -[iterations].
      rewrite length_app, length_map, iterations_other by done.
      repeat split; try done; repeat case_decide; cbn; try done; lia.
  - rewrite consumeNotify_error. cbn zeta. case_decide.
    + eexists _, []. split; [done|]. cbn. rewrite app_nil_r.
      repeat split; try done; repeat case_decide; cbn; try done; lia.
    + eexists _, [(W_LOG_FATAL, Log_port_getn_error err)].
      split; [done|]. cbn. repeat split; try done; repeat case_decide; cbn; try done; lia.
Qed.

(** C9. [do_watch] returns, and it returns true exactly when the
    registry it leaves holds an entry for the path; the number of entries
    for the path is then one, and zero when it returns false.  Path by
    path: a path that is already armed gives true and one entry; for a
    path that is not armed, a failed allocation of the token, a failed
    insertion into the table and a failed [port_associate] each give false
    and no entry, and when all three succeed the call gives true and one
    entry. *)
Theorem do_watch_true_iff_entry env nm st s :
  ∃ b s',
    do_watch env nm st s = Returned b s'
    ∧ (b = true ↔ is_Some (port_files (watcher s') !! nm))
    ∧ entries_for nm (port_files (watcher s')) = (if b then 1 else 0)
    ∧ (is_Some (port_files (watcher s) !! nm) →
       b = true ∧ entries_for nm (port_files (watcher s')) = 1)
    ∧ (port_files (watcher s) !! nm = None →
       calloc_ok env = false →
       b = false ∧ entries_for nm (port_files (watcher s')) = 0)
    ∧ (port_files (watcher s) !! nm = None →
       calloc_ok env = true → ht_room env = false →
       b = false ∧ entries_for nm (port_files (watcher s')) = 0)
    ∧ (port_files (watcher s) !! nm = None →
       calloc_ok env = true → ht_room env = true → associate_ret env ≠ 0%Z →
       b = false ∧ entries_for nm (port_files (watcher s')) = 0)
    ∧ (port_files (watcher s) !! nm = None →
       calloc_ok env = true → ht_room env = true → associate_ret env = 0%Z →
       b = true ∧ entries_for nm (port_files (watcher s')) = 1).
Proof.
  destruct (do_watch_sound env nm st s) as (b & s' & Hrun & Hiff).
  exists b, s'. split; [done|]. split; [done|].
  assert (Hcount : entries_for nm (port_files (watcher s')) = (if b then 1 else 0)).
  { rewrite entries_for_lookup.
    destruct (port_files (watcher s') !! nm) as [f|] eqn:E.
    - destruct Hiff as [_ ->]; done.
    - destruct b; [|done]. destruct Hiff as [Hsome _].
      by destruct (Hsome eq_refl). }
  split; [done|].
  assert (Hb : ∀ b0 s0, do_watch env nm st s = Returned b0 s0 →
                 b = b0 ∧ entries_for nm (port_files (watcher s')) = (if b0 then 1 else 0)).
  { intros b0 s0 Hrun0. rewrite Hrun in Hrun0. by injection Hrun0 as <- <-. }
  split_and!.
  - intros Hsome. by apply (Hb true s), do_watch_known.
  - intros Hnm Hc. apply (Hb false s), do_watch_no_memory; auto.
  - intros Hnm Hc Hr. apply (Hb false s), do_watch_no_memory; auto.
  - intros Hnm Hc Hr Hret.
    destruct (do_watch_fresh env nm st s Hnm Hc Hr) as (f & _ & Hfresh).
    rewrite decide_True in Hfresh by done. by apply Hb in Hfresh.
  - intros Hnm Hc Hr Hret.
    destruct (do_watch_fresh env nm st s Hnm Hc Hr) as (f & _ & Hfresh).
    rewrite decide_False in Hfresh by (intros ?; done). by apply Hb in Hfresh.
Qed.

(** C10. The call returns true exactly when it was handed at least one
    event and no event of the batch loses the root.  It returns false when
    an event of the batch loses the root (and the root is then cancelled),
    when it was handed no event, and when [port_getn] was interrupted; in
    the last two cases the root is left as it was. *)
Theorem consumeNotify_result ans s :
  ((∃ s', consumeNotify ans s = Returned true s') ↔
     retrieved ans ≠ []
     ∧ Forall (λ e, root_lost (root_path (root s)) e = false) (retrieved ans))
  ∧ ((∃ e, e ∈ retrieved ans ∧ root_lost (root_path (root s)) e = true) →
     ∃ s', consumeNotify ans s = Returned false s' ∧ cancelled (root s') = true)
  ∧ ((∃ queue, ans = Getn_events queue) → retrieved ans = [] →
     ∃ s', consumeNotify ans s = Returned false s' ∧ root s' = root s)
  ∧ (ans = Getn_error EINTR →
     ∃ s', consumeNotify ans s = Returned false s' ∧ root s' = root s).
Proof.
  split; [|split; [|split]].
  - destruct ans as [queue|err].
    + rewrite consumeNotify_events. cbn zeta. cbn [retrieved].
      set (got := take WATCHMAN_BATCH_LIMIT queue).
      case_decide as Hlen.
      * split; [by intros [? ?]|]. intros [Hne _].
        by apply nil_length_inv in Hlen.
      * destruct (existsb (root_lost (root_path (root s))) got) eqn:E; cbn.
        -- split; [by intros [? ?]|]. intros [_ Hall].
           by rewrite (existsb_clean _ _ Hall) in E.
        -- split; [|by eauto]. intros _. split.
           { intros Hnil. by rewrite Hnil in Hlen. }
           apply Forall_forall. intros e He.
           destruct (root_lost (root_path (root s)) e) eqn:Ee; [|done].
           assert (existsb (root_lost (root_path (root s))) got = true) as Hex; [|congruence].
           apply existsb_exists. exists e. split; [|done].
           by apply list_elem_of_In.
    + rewrite consumeNotify_error. cbn zeta. cbn [retrieved].
      case_decide; split; try (by intros [? ?]); by intros [? _].
  - intros (e & He & Hlost). destruct ans as [queue|err]; cbn [retrieved] in He.
    + rewrite consumeNotify_events. cbn zeta.
      assert (existsb (root_lost (root_path (root s)))
                (take WATCHMAN_BATCH_LIMIT queue) = true) as Hex.
      { apply existsb_exists. exists e. split; [by apply list_elem_of_In|done]. }
      rewrite decide_False.
      * eexists. rewrite Hex. split; [done|]. cbn. by rewrite Hex.
      * intros Hlen. apply nil_length_inv in Hlen. rewrite Hlen in He.
        by apply elem_of_nil in He.
    + by apply elem_of_nil in He.
  - intros [queue ->] Hnil. cbn [retrieved] in Hnil.
    rewrite consumeNotify_events. cbn zeta. rewrite Hnil. cbn.
    eexists. by split.
  - intros ->. rewrite consumeNotify_error. cbn zeta.
    rewrite decide_True by done. eexists. by split.
Qed.

End Claims.

(** * The claims on concrete inputs *)

(** On illumos, a deleted root loses the root, a modified root or a
    deleted file does not. *)
Example root_lost_examples :
  root_lost (H := illumos) "/root" (ex_event 0x10 "/root") = true
  ∧ root_lost (H := illumos) "/root" (ex_event 0x2 "/root") = false
  ∧ root_lost (H := illumos) "/root" (ex_event 0x10 "/root/a") = false
  ∧ root_lost (H := illumos) "/root" (ex_event (-0x80000000) "/root") = false
  ∧ root_lost (H := illumos) "/root" (ex_event 0x40000002 "/root") = true.
Proof. vm_compute. done. Qed.

(** C1 on a batch of three events whose second reports the root deleted:
    the call returns false, the root is cancelled, and the record of the
    first event is the only one in the collection. *)
Lemma consumeNotify_root_loss_cancels_witness :
  let queue := [ex_event 0x2 "/root/a"; ex_event 0x10 "/root"; ex_event 0x2 "/root/b"] in
  let ev := ex_event 0x10 "/root" in
  ev ∈ retrieved (H := illumos) (Getn_events queue)
  ∧ (Z.land (to_uint32 (portev_events ev)) (FILE_DELETE (Headers := illumos)) ≠ 0)%Z
  ∧ name (portev_user ev) = root_path (root ex_machine)
  ∧ ∃ s', consumeNotify (H := illumos) (Getn_events queue) ex_machine = Returned false s'
      ∧ cancelled (root s') = true
      ∧ coll s' = [pending_of (H := illumos) Indeterminate (ex_event 0x2 "/root/a")].
Proof.
  intros queue ev.
  assert (Hin : ev ∈ retrieved (H := illumos) (Getn_events queue)) by in_list.
  assert (Hbit : (Z.land (to_uint32 (portev_events ev))
                    (FILE_DELETE (Headers := illumos)) ≠ 0)%Z)
    by (vm_compute; discriminate).
  assert (Hname : name (portev_user ev) = root_path (root ex_machine)) by reflexivity.
  split; [exact Hin|]. split; [exact Hbit|]. split; [exact Hname|].
  destruct (consumeNotify_root_loss_cancels (H := illumos) ex_machine queue ev
              Hin (or_introl Hbit) Hname)
    as (pre & lost & post & s' & _ & _ & _ & Hrun & Hroot & _).
  exists s'. split; [exact Hrun|].
  rewrite Hroot. split; [reflexivity|].
  vm_compute in Hrun. injection Hrun as <-. vm_compute. reflexivity.
Defined.



(** C3 as stated fails.  An event behind the one that cancels the root
    pushes nothing: the file ["/root/a"] is reported modified in the
    batch in which the root is reported deleted; the call pushes no
    record and cancels the root. *)
Lemma consumeNotify_skips_events_behind_root_loss :
  let ev := ex_event 0x2 "/root/a" in
  let queue := [ex_event 0x10 "/root"; ev] in
  let o := consumeNotify (H := illumos) (Getn_events queue) ex_machine in
  ev ∈ retrieved (H := illumos) (Getn_events queue)
  ∧ root_lost (H := illumos) (root_path (root ex_machine)) ev = false
  ∧ result o = Some false
  ∧ coll (final o) = coll ex_machine
  ∧ cancelled (root (final o)) = true
  ∧ cancelled (root ex_machine) = false.
Proof.
  cbv zeta. split; [in_list|].
  by_running.
Qed.

(** C3 as amended, on a batch of two files: one record each, in order,
    and the root is left as it was. *)
Lemma consumeNotify_pushes_one_record_witness :
  let a := ex_event 0x2 "/root/a" in
  let b := ex_event 0x4 "/root/b" in
  retrieved (H := illumos) (Getn_events [a; b]) = [a] ++ b :: []
  ∧ Forall (λ e, root_lost (H := illumos) (root_path (root ex_machine)) e = false) [a]
  ∧ root_lost (H := illumos) (root_path (root ex_machine)) b = false
  ∧ ∃ s', consumeNotify (H := illumos) (Getn_events [a; b]) ex_machine = Returned true s'
      ∧ coll s' = [pending_of (H := illumos) Indeterminate a;
                   pending_of (H := illumos) Indeterminate b]
      ∧ root s' = root ex_machine.
Proof.
  intros a b.
  assert (Hsplit : retrieved (H := illumos) (Getn_events [a; b]) = [a] ++ b :: [])
    by (vm_compute; reflexivity).
  assert (Hpre : Forall (λ e, root_lost (H := illumos) (root_path (root ex_machine)) e
                              = false) [a])
    by (repeat constructor).
  assert (Hb : root_lost (H := illumos) (root_path (root ex_machine)) b = false)
    by (vm_compute; reflexivity).
  split; [exact Hsplit|]. split; [exact Hpre|]. split; [exact Hb|].
  destruct (consumeNotify_pushes_one_record (H := illumos) ex_machine [a; b] [a] b []
              Hsplit Hpre Hb) as (r & s' & Hrun & Hcoll & _ & _ & _ & Hall).
  destruct (Hall (Forall_nil_2 _)) as [-> Hroot].
  exists s'. split; [exact Hrun|]. split; [exact Hcoll|exact Hroot].
Defined.

(** C4. One modified file is drained on illumos: the call returns true
    and the record it pushed for ["/root/a"] has the time stamp of a
    variable that was never assigned, not the time of the drain. *)
Theorem consumeNotify_now_is_indeterminate :
  let o := consumeNotify (H := illumos) (Getn_events [ex_event 0x2 "/root/a"]) ex_machine in
  result o = Some true
  ∧ coll (final o) = [{| path := "/root/a"; now := Indeterminate; flags := 3 |}].
Proof. cbv zeta. by_running. Qed.

(** C5 with the error numbers 4 (EINTR) and 5 (EIO). *)
Lemma consumeNotify_getn_failure_witness :
  4%Z = EINTR (Headers := illumos)
  ∧ 5%Z ≠ EINTR (Headers := illumos)
  ∧ (∃ s', consumeNotify (H := illumos) (Getn_error 4) ex_machine = Returned false s'
       ∧ root s' = root ex_machine ∧ watcher s' = watcher ex_machine)
  ∧ (∃ s', consumeNotify (H := illumos) (Getn_error 5) ex_machine = Aborted s').
Proof.
  assert (H4 : 4%Z = EINTR (Headers := illumos)) by reflexivity.
  assert (H5 : 5%Z ≠ EINTR (Headers := illumos)) by (vm_compute; discriminate).
  split; [exact H4|]. split; [exact H5|]. split.
  - destruct (proj1 (consumeNotify_getn_failure (H := illumos) ex_machine 4) H4)
      as (s' & Hrun & Hroot & Hw & _).
    exists s'. split; [exact Hrun|]. split; [exact Hroot|exact Hw].
  - destruct (proj2 (consumeNotify_getn_failure (H := illumos) ex_machine 5) H5)
      as (s' & Hrun & _).
    exists s'. exact Hrun.
Defined.

(** C6 on the idle machine: the second call would have failed at the
    port, which it never reaches. *)
Lemma do_watch_twice_witness :
  let s1 := final (do_watch (H := illumos) ex_env_ok "/root/a" ex_stat ex_idle) in
  do_watch (H := illumos) ex_env_ok "/root/a" ex_stat ex_idle = Returned true s1
  ∧ do_watch (H := illumos) ex_env_enoent "/root/a" ex_stat s1 = Returned true s1
  ∧ entries_for "/root/a" (port_files (watcher s1)) = 1.
Proof.
  intros s1.
  assert (Hfirst : do_watch (H := illumos) ex_env_ok "/root/a" ex_stat ex_idle
                   = Returned true s1) by (vm_compute; reflexivity).
  split; [exact Hfirst|].
  exact (do_watch_twice (H := illumos) ex_env_ok ex_env_enoent "/root/a" ex_stat ex_stat
           ex_idle s1 Hfirst).
Defined.

(** C9 on the five paths through [do_watch]: a path already armed, a
    token that cannot be allocated, a table that cannot take it, an
    association that fails with ENOENT, and a successful fresh arm. *)
Lemma do_watch_true_iff_entry_witness :
  (is_Some (port_files (watcher ex_machine) !! "/root/a")
   ∧ ∃ s', do_watch (H := illumos) ex_env_enoent "/root/a" ex_stat ex_machine
           = Returned true s'
       ∧ entries_for "/root/a" (port_files (watcher s')) = 1)
  ∧ (port_files (watcher ex_machine) !! "/root/c" = None
     ∧ calloc_ok ex_env_nomem = false
     ∧ ∃ s', do_watch (H := illumos) ex_env_nomem "/root/c" ex_stat ex_machine
             = Returned false s'
         ∧ entries_for "/root/c" (port_files (watcher s')) = 0)
  ∧ (calloc_ok ex_env_noroom = true ∧ ht_room ex_env_noroom = false
     ∧ ∃ s', do_watch (H := illumos) ex_env_noroom "/root/c" ex_stat ex_machine
             = Returned false s'
         ∧ entries_for "/root/c" (port_files (watcher s')) = 0)
  ∧ (calloc_ok ex_env_enoent = true ∧ ht_room ex_env_enoent = true
     ∧ associate_ret ex_env_enoent ≠ 0%Z
     ∧ ∃ s', do_watch (H := illumos) ex_env_enoent "/root/c" ex_stat ex_machine
             = Returned false s'
         ∧ entries_for "/root/c" (port_files (watcher s')) = 0)
  ∧ (calloc_ok ex_env_ok = true ∧ ht_room ex_env_ok = true
     ∧ associate_ret ex_env_ok = 0%Z
     ∧ ∃ s', do_watch (H := illumos) ex_env_ok "/root/c" ex_stat ex_machine
             = Returned true s'
         ∧ entries_for "/root/c" (port_files (watcher s')) = 1).
Proof.
  assert (Ha : is_Some (port_files (watcher ex_machine) !! "/root/a"))
    by (vm_compute; eexists; reflexivity).
  assert (Hc : port_files (watcher ex_machine) !! "/root/c" = None)
    by (vm_compute; reflexivity).
  assert (Hret : associate_ret ex_env_enoent ≠ 0%Z) by (vm_compute; discriminate).
  split; [|split; [|split; [|split]]].
  - split; [exact Ha|].
    destruct (do_watch_true_iff_entry (H := illumos) ex_env_enoent "/root/a" ex_stat
                ex_machine) as (b & s' & Hrun & _ & _ & Hpath & _).
    destruct (Hpath Ha) as [Hb Hn]. rewrite Hb in Hrun.
    exists s'. split; [exact Hrun|exact Hn].
  - split; [exact Hc|]. split; [reflexivity|].
    destruct (do_watch_true_iff_entry (H := illumos) ex_env_nomem "/root/c" ex_stat
                ex_machine) as (b & s' & Hrun & _ & _ & _ & Hpath & _).
    destruct (Hpath Hc eq_refl) as [Hb Hn].
    rewrite Hb in Hrun. exists s'. split; [exact Hrun|exact Hn].
  - split; [reflexivity|]. split; [reflexivity|].
    destruct (do_watch_true_iff_entry (H := illumos) ex_env_noroom "/root/c" ex_stat
                ex_machine) as (b & s' & Hrun & _ & _ & _ & _ & Hpath & _).
    destruct (Hpath Hc eq_refl eq_refl) as [Hb Hn].
    rewrite Hb in Hrun. exists s'. split; [exact Hrun|exact Hn].
  - split; [reflexivity|]. split; [reflexivity|]. split; [exact Hret|].
    destruct (do_watch_true_iff_entry (H := illumos) ex_env_enoent "/root/c" ex_stat
                ex_machine) as (b & s' & Hrun & _ & _ & _ & _ & _ & Hpath & _).
    destruct (Hpath Hc eq_refl eq_refl Hret) as [Hb Hn].
    rewrite Hb in Hrun. exists s'. split; [exact Hrun|exact Hn].
  - split; [reflexivity|]. split; [reflexivity|]. split; [reflexivity|].
    destruct (do_watch_true_iff_entry (H := illumos) ex_env_ok "/root/c" ex_stat
                ex_machine) as (b & s' & Hrun & _ & _ & _ & _ & _ & _ & Hpath).
    destruct (Hpath Hc eq_refl eq_refl eq_refl) as [Hb Hn].
    rewrite Hb in Hrun. exists s'. split; [exact Hrun|exact Hn].
Defined.

(** C7 for a new path whose association fails with ENOENT. *)
Lemma do_watch_associate_failure_witness :
  port_files (watcher ex_machine) !! "/root/c" = None
  ∧ calloc_ok ex_env_enoent = true
  ∧ ht_room ex_env_enoent = true
  ∧ associate_ret ex_env_enoent ≠ 0%Z
  ∧ ∃ s', do_watch (H := illumos) ex_env_enoent "/root/c" ex_stat ex_machine
          = Returned false s'
      ∧ watcher s' = watcher ex_machine.
Proof.
  assert (Hnm : port_files (watcher ex_machine) !! "/root/c" = None)
    by (vm_compute; reflexivity).
  assert (Hret : associate_ret ex_env_enoent ≠ 0%Z) by (vm_compute; discriminate).
  split; [exact Hnm|]. split; [reflexivity|]. split; [reflexivity|].
  split; [exact Hret|].
  destruct (do_watch_associate_failure (H := illumos) ex_env_enoent "/root/c" ex_stat
              ex_machine Hnm eq_refl eq_refl Hret) as (f & s' & _ & Hrun & Hw & _).
  exists s'. split; [exact Hrun|exact Hw].
Defined.

(** C10: a lost root, an empty batch and an interrupted call all answer
    false. *)
Lemma consumeNotify_result_witness :
  let lost := ex_event 0x10 "/root" in
  (lost ∈ retrieved (H := illumos) (Getn_events [lost])
   ∧ root_lost (H := illumos) (root_path (root ex_machine)) lost = true)
  ∧ (∃ s', consumeNotify (H := illumos) (Getn_events [lost]) ex_machine = Returned false s'
       ∧ cancelled (root s') = true)
  ∧ retrieved (H := illumos) (Getn_events []) = []
  ∧ (∃ s', consumeNotify (H := illumos) (Getn_events []) ex_machine = Returned false s'
       ∧ root s' = root ex_machine)
  ∧ (∃ s', consumeNotify (H := illumos) (Getn_error (EINTR (Headers := illumos))) ex_machine
           = Returned false s'
       ∧ root s' = root ex_machine).
Proof.
  intros lost.
  assert (Hlost : lost ∈ retrieved (H := illumos) (Getn_events [lost])
                  ∧ root_lost (H := illumos) (root_path (root ex_machine)) lost = true).
  { split; [in_list|vm_compute; reflexivity]. }
  assert (Hnil : retrieved (H := illumos) (Getn_events []) = []) by reflexivity.
  split; [exact Hlost|]. split; [|split; [exact Hnil|split]].
  - exact (proj1 (proj2 (consumeNotify_result (H := illumos) (Getn_events [lost]) ex_machine))
             (ex_intro _ lost Hlost)).
  - exact (proj1 (proj2 (proj2 (consumeNotify_result (H := illumos) (Getn_events [])
                                  ex_machine)))
             (ex_intro _ [] eq_refl) Hnil).
  - exact (proj2 (proj2 (proj2 (consumeNotify_result (H := illumos)
                                  (Getn_error (EINTR (Headers := illumos))) ex_machine)))
             eq_refl).
Defined.

(** The scenario of the design document: ["/root/a"] and ["/root/b"] are
    armed, a modification of ["/root/a"] is delivered; one record for
    ["/root/a"] is pushed, its entry is gone and that of ["/root/b"]
    stays. *)
Example scenario_arm_two_drain_one :
  let s1 := final (do_watch (H := illumos) ex_env_ok "/root/a" ex_stat ex_idle) in
  let s2 := final (do_watch (H := illumos) ex_env_ok "/root/b" ex_stat s1) in
  let o := consumeNotify (H := illumos) (Getn_events [ex_event 0x2 "/root/a"]) s2 in
  result o = Some true
  ∧ map path (coll (final o)) = ["/root/a"]
  ∧ port_files (watcher (final o)) !! "/root/a" = None
  ∧ port_files (watcher (final o)) !! "/root/b" = Some (ex_file "/root/b").
Proof. cbv zeta. by_running. Qed.

(** * Further properties of the watcher *)

Section More.
Context `{H : Headers}.

(** *** What one call can change *)

(** [do_watch] either leaves the registry alone or adds the token made
    from its arguments under a name that was free; nothing else of the
    watcher, the root or the collection changes. *)
Lemma do_watch_shape env nm st s :
  ∃ b s', do_watch env nm st s = Returned b s'
    ∧ root s' = root s
    ∧ coll s' = coll s
    ∧ port_fd (watcher s') = port_fd (watcher s)
    ∧ portevents (watcher s') = portevents (watcher s)
    ∧ (port_files (watcher s') = port_files (watcher s)
       ∨ ∃ f, make_port_file true nm st = Some f
           ∧ port_files (watcher s) !! nm = None
           ∧ port_files (watcher s') = <[nm := f]> (port_files (watcher s))).
Proof.
  destruct (port_files (watcher s) !! nm) as [f|] eqn:Hnm.
  - exists true, s. rewrite do_watch_known by (by rewrite Hnm). by auto 10.
  - destruct (calloc_ok env) eqn:Hc; [destruct (ht_room env) eqn:Hr|].
    + destruct (do_watch_fresh env nm st s Hnm Hc Hr) as (f & Hf & ->).
      case_decide.
      * eexists false, _. split; [done|]. cbn. by auto 10.
      * eexists true, _. split; [done|]. cbn. repeat split; try done.
        right. by exists f.
    + exists false, s. rewrite do_watch_no_memory by auto. by auto 10.
    + exists false, s. rewrite do_watch_no_memory by auto. by auto 10.
Qed.

(** [consumeNotify] leaves the descriptor and the root path alone,
    cancels at most, and deletes the entries of the events it
    processed. *)
Lemma consumeNotify_shape ans s :
  let s' := final (consumeNotify ans s) in
  port_fd (watcher s') = port_fd (watcher s)
  ∧ root_path (root s') = root_path (root s)
  ∧ cancelled (root s') =
      cancelled (root s) || existsb (root_lost (root_path (root s))) (retrieved ans)
  ∧ port_files (watcher s') =
      forget (port_files (watcher s))
        (processed (root_path (root s)) (retrieved ans)).
Proof.
  destruct ans as [queue|err]; cbn [retrieved].
  - rewrite consumeNotify_events. cbn zeta. case_decide as Hlen.
    + apply nil_length_inv in Hlen. rewrite Hlen. cbn.
      by rewrite orb_false_r.
    + cbn. destruct (existsb _ _); cbn; by rewrite ?orb_true_r, ?orb_false_r.
  - rewrite consumeNotify_error. cbn zeta.
    case_decide; cbn; by rewrite orb_false_r.
Qed.

Lemma forget_lookup_Some (m : gmap string watchman_port_file) evs k f :
  forget m evs !! k = Some f → m !! k = Some f.
Proof.
  revert m. induction evs as [|e evs IH]; intros m Hk; [done|].
  cbn in Hk. apply IH in Hk. unfold w_ht_del in Hk.
  by apply lookup_delete_Some in Hk as [_ ?].
Qed.

Lemma forget_lookup (m : gmap string watchman_port_file) evs k :
  forget m evs !! k =
    if decide (k ∈ map (λ e, name (portev_user e)) evs) then None else m !! k.
Proof.
  case_decide as Hk.
  - apply list_elem_of_fmap in Hk as (e & -> & He).
    by apply forget_lookup_elem.
  - apply forget_lookup_other. apply Forall_forall. intros e He Heq.
    apply Hk. apply list_elem_of_fmap. by exists e.
Qed.

(** X1. The test of the loop, a single mask of the four bits, holds
    exactly when the event has at least one of FILE_DELETE,
    FILE_RENAME_FROM, UNMOUNTED, MOUNTEDOVER set in its 32-bit flags and
    its path is byte for byte the root path. *)
Theorem root_lost_iff_some_bit rp ev :
  root_lost rp ev = true ↔
    (Z.land (to_uint32 (portev_events ev)) FILE_DELETE ≠ 0
     ∨ Z.land (to_uint32 (portev_events ev)) FILE_RENAME_FROM ≠ 0
     ∨ Z.land (to_uint32 (portev_events ev)) UNMOUNTED ≠ 0
     ∨ Z.land (to_uint32 (portev_events ev)) MOUNTEDOVER ≠ 0)%Z
    ∧ name (portev_user ev) = rp.
Proof. apply root_lost_true. Qed.

(** X2. [do_watch] returns, and whatever it returns it has touched
    nothing but the entry of its own path: the entries of all other
    paths, the descriptor, the array of events, the root and the
    collection are as before. *)
Theorem do_watch_frame env nm st s :
  ∃ b s', do_watch env nm st s = Returned b s'
    ∧ (∀ k, k ≠ nm → port_files (watcher s') !! k = port_files (watcher s) !! k)
    ∧ port_fd (watcher s') = port_fd (watcher s)
    ∧ portevents (watcher s') = portevents (watcher s)
    ∧ root s' = root s
    ∧ coll s' = coll s.
Proof.
  destruct (do_watch_shape env nm st s)
    as (b & s' & Hrun & Hroot & Hcoll & Hfd & Harr & Hfiles).
  exists b, s'. repeat split; try done.
  intros k Hk. destruct Hfiles as [->|(f & _ & _ & ->)]; [done|].
  by rewrite lookup_insert_ne.
Qed.

(** X3. When the token or the bucket of the table cannot be allocated
    for a path that is not armed, [do_watch] returns false without a call
    to the port and without a log line, and leaves the watcher, the root
    and the collection as they were. *)
Theorem do_watch_allocation_failure env nm st s :
  port_files (watcher s) !! nm = None →
  calloc_ok env = false ∨ ht_room env = false →
  ∃ s',
    do_watch env nm st s = Returned false s'
    ∧ watcher s' = watcher s
    ∧ root s' = root s
    ∧ coll s' = coll s
    ∧ syscalls s' = syscalls s
    ∧ logs s' = logs s.
Proof.
  intros Hnm Hfail. exists s. split; [by apply do_watch_no_memory|].
  by repeat split.
Qed.

(** X4. A path that is not armed and whose allocations and association
    succeed gets a token that carries the path, as name and as file name,
    and the access, modification and change times of the [stat] given;
    the one call to the port associates this token, as object and as
    cookie, on the watcher's descriptor with the events
    FILE_MODIFIED|FILE_ATTRIB|FILE_NOFOLLOW; the registry grows by this
    one entry. *)
Theorem do_watch_fresh_token env nm st s :
  port_files (watcher s) !! nm = None →
  calloc_ok env = true →
  ht_room env = true →
  associate_ret env = 0%Z →
  ∃ s',
    let f := {| name := nm;
                port_file := {| fo_name := nm; fo_atime := st_atim st;
                                fo_mtime := st_mtim st; fo_ctime := st_ctim st |} |} in
    do_watch env nm st s = Returned true s'
    ∧ port_files (watcher s') = <[nm := f]> (port_files (watcher s))
    ∧ size (port_files (watcher s')) = S (size (port_files (watcher s)))
    ∧ syscalls s' = syscalls s ++
        [Sys_port_associate (port_fd (watcher s)) PORT_SOURCE_FILE (port_file f)
           (Z.lor (Z.lor FILE_MODIFIED FILE_ATTRIB) FILE_NOFOLLOW) f]
    ∧ errno s' = 0%Z.
Proof.
  intros Hnm Hc Hr Hret.
  destruct (do_watch_fresh env nm st s Hnm Hc Hr) as (f & Hf & ->).
  injection Hf as <-.
  rewrite decide_False by (intros ?; done).
  eexists. cbv zeta. split; [done|]. cbn.
  repeat split; try done. by apply map_size_insert_None.
Qed.

(** X5. After a call the registry holds, for every path, what it held
    before, except that the paths of the events the loop processed (those
    in front of the first root-loss event of the batch) are gone; the call
    never adds an entry. *)
Theorem consumeNotify_registry_after ans s k :
  port_files (watcher (final (consumeNotify ans s))) !! k =
    if decide (k ∈ map (λ e, name (portev_user e))
                     (processed (root_path (root s)) (retrieved ans)))
    then None
    else port_files (watcher s) !! k.
Proof.
  destruct (consumeNotify_shape ans s) as (_ & _ & _ & ->).
  apply forget_lookup.
Qed.

(** X6. The loop reads only the entries of the array that [port_getn]
    has just written: whatever the array held before the call, the call
    returns the same value and leaves the same root, collection, registry,
    log and port calls. *)
Theorem consumeNotify_ignores_stale_events ans s arr :
  let o1 := consumeNotify ans s in
  let o2 := consumeNotify ans (with_watcher (with_portevents arr (watcher s)) s) in
  result o2 = result o1
  ∧ root (final o2) = root (final o1)
  ∧ coll (final o2) = coll (final o1)
  ∧ port_files (watcher (final o2)) = port_files (watcher (final o1))
  ∧ logs (final o2) = logs (final o1)
  ∧ syscalls (final o2) = syscalls (final o1)
  ∧ errno (final o2) = errno (final o1).
Proof.
  cbv zeta. destruct ans as [queue|err].
  - rewrite !consumeNotify_events. cbn zeta. case_decide; cbn; done.
  - rewrite !consumeNotify_error. cbn zeta. case_decide; cbn; done.
Qed.

(** X7. The call does not look at the cancelled flag: on a root that is
    already cancelled it asks the port, pushes, deletes and logs exactly
    as on an active one, and it never clears the flag. *)
Theorem consumeNotify_ignores_cancelled ans s c :
  let o1 := consumeNotify ans s in
  let o2 := consumeNotify ans
              (with_root {| root_path := root_path (root s); cancelled := c |} s) in
  result o2 = result o1
  ∧ coll (final o2) = coll (final o1)
  ∧ watcher (final o2) = watcher (final o1)
  ∧ logs (final o2) = logs (final o1)
  ∧ syscalls (final o2) = syscalls (final o1)
  ∧ (c = true → cancelled (root (final o2)) = true).
Proof.
  cbv zeta. destruct ans as [queue|err].
  - rewrite !consumeNotify_events. cbn zeta. case_decide; cbn; [done|].
    repeat split; try done. intros ->. by destruct (existsb _ _).
  - rewrite !consumeNotify_error. cbn zeta. case_decide; cbn; done.
Qed.

(** X8. Arming a free path and then draining the one event delivered
    for its token, when the event does not lose the root, brings the
    registry back to what it was and pushes one record for the path. *)
Theorem arm_then_event_restores_registry env nm st bits f s :
  port_files (watcher s) !! nm = None →
  calloc_ok env = true →
  ht_room env = true →
  associate_ret env = 0%Z →
  1 ≤ WATCHMAN_BATCH_LIMIT →
  make_port_file true nm st = Some f →
  root_lost (root_path (root s)) {| portev_events := bits; portev_user := f |} = false →
  ∃ s1 s2,
    do_watch env nm st s = Returned true s1
    ∧ consumeNotify (Getn_events [{| portev_events := bits; portev_user := f |}]) s1
      = Returned true s2
    ∧ port_files (watcher s2) = port_files (watcher s)
    ∧ coll s2 = coll s ++
        [pending_of Indeterminate {| portev_events := bits; portev_user := f |}]
    ∧ root s2 = root s.
Proof.
  intros Hnm Hc Hr Hret Hlim Hf.
  destruct (do_watch_fresh env nm st s Hnm Hc Hr) as (f' & Hf' & ->).
  rewrite Hf in Hf'. injection Hf' as <-.
  rewrite decide_False by (intros ?; done).
  set (ev := {| portev_events := bits; portev_user := f |}). intros Hev.
  eexists _, _. split; [done|].
  rewrite consumeNotify_events. cbn zeta.
  destruct WATCHMAN_BATCH_LIMIT as [|n] eqn:E; [lia|]. cbn [take].
  rewrite take_nil. cbn [length]. rewrite decide_False by done.
  unfold after_loop, after_getn.
  cbn [root root_path existsb processed watcher port_files coll with_port_files
       with_portevents]. rewrite !Hev.
  split; [done|]. cbn. unfold w_ht_del.
  injection Hf as <-. cbn.
  by rewrite delete_insert_id.
Qed.

End More.

Ltac hrun :=
  cbv [mbind HM_bind mret HM_ret lift call host_w_log M_bind M_ret gets modify].

Section Tree_properties.
Context `{H : Headers} `{P : Strings}.

(** *** Closed form of [startWatchDir] *)

Lemma startWatchDir_eq env dir t p h :
  startWatchDir env dir t p h =
    match opendir_ret env with
    | None =>
        HReturned None
          {| mach := with_errno (opendir_errno env) (mach h);
             trace := trace h ++
               [Call_w_dir_open p;
                Call_handle_open_errno dir t "opendir" (opendir_errno env)] |}
    | Some osdir =>
        match fstat_ret env with
        | None =>
            HReturned None
              {| mach := with_errno (fstat_errno env) (mach h);
                 trace := trace h ++
                   [Call_w_dir_open p; Call_fstat osdir;
                    Call_w_log W_LOG_ERR (Log_fstat_failed p (fstat_errno env));
                    Call_w_root_schedule_recrawl "fstat failed";
                    Call_w_dir_close osdir] |}
        | Some st =>
            match do_watch (dir_arm env) (w_dir_copy_full_path dir) st (mach h) with
            | Returned true s' =>
                HReturned (Some osdir)
                  {| mach := s';
                     trace := trace h ++ [Call_w_dir_open p; Call_fstat osdir] |}
            | Returned false s' =>
                HReturned None
                  {| mach := s';
                     trace := trace h ++
                       [Call_w_dir_open p; Call_fstat osdir; Call_w_dir_close osdir] |}
            | Aborted s' =>
                HAborted
                  {| mach := s';
                     trace := trace h ++ [Call_w_dir_open p; Call_fstat osdir] |}
            end
        end
    end.
Proof.
  destruct h as [s tr]. unfold startWatchDir. hrun. cbn.
  destruct (opendir_ret env) as [osdir|]; cbn.
  - destruct (fstat_ret env) as [st|]; cbn.
    + destruct (do_watch _ _ _ s) as [[|] s'|s']; cbn;
        by rewrite <- ?app_assoc.
    + by rewrite <- !app_assoc.
  - by rewrite <- !app_assoc.
Qed.

(** *** What one step can change *)

Lemma step_shape o h :
  let s := mach h in
  let s' := mach (hfinal (step o h)) in
  port_fd (watcher s') = port_fd (watcher s)
  ∧ root_path (root s') = root_path (root s)
  ∧ (cancelled (root s) = true → cancelled (root s') = true)
  ∧ (∀ k f, port_files (watcher s') !! k = Some f →
       port_files (watcher s) !! k = Some f
       ∨ (name f = k ∧ fo_name (port_file f) = k)).
Proof.
  assert (Harm : ∀ env nm st s,
    let s' := final (do_watch env nm st s) in
    port_fd (watcher s') = port_fd (watcher s)
    ∧ root_path (root s') = root_path (root s)
    ∧ (cancelled (root s) = true → cancelled (root s') = true)
    ∧ (∀ k f, port_files (watcher s') !! k = Some f →
         port_files (watcher s) !! k = Some f
         ∨ (name f = k ∧ fo_name (port_file f) = k))).
  { intros env nm st s.
    destruct (do_watch_shape env nm st s)
      as (b & s' & -> & Hroot & _ & Hfd & _ & Hfiles).
    cbn. rewrite Hroot. repeat split; try done.
    intros k f Hk. destruct Hfiles as [<-|(f' & Hf' & _ & Heq)]; [by left|].
    rewrite Heq in Hk. injection Hf' as <-.
    destruct (decide (nm = k)) as [->|Hne].
    - rewrite lookup_insert_eq in Hk. injection Hk as <-. by right.
    - rewrite lookup_insert_ne in Hk by done. by left. }
  destruct h as [s tr]. cbv zeta. destruct o as [env nm st|ok env file|env dir t p|ans].
  - specialize (Harm env nm st s). cbn in *. hrun. cbn.
    by destruct (do_watch env nm st s).
  - unfold step, startWatchFile. destruct ok.
    + specialize (Harm env (w_string_path_cat (Tree.path (Tree.parent file))
                              (Tree.name file)) (Tree.st file) s).
      hrun. cbn in *. by destruct (do_watch _ _ _ s).
    + hrun. cbn. by auto.
  - unfold step. hrun. rewrite startWatchDir_eq. cbn.
    destruct (opendir_ret env) as [osdir|]; cbn; [|by auto].
    destruct (fstat_ret env) as [st|]; cbn; [|by auto].
    specialize (Harm (dir_arm env) (w_dir_copy_full_path dir) st s). cbn in Harm.
    by destruct (do_watch _ _ _ s) as [[|] s'|s'].
  - destruct (consumeNotify_shape ans s) as (Hfd & Hrp & Hc & Hfiles).
    unfold step. hrun. cbn.
    assert (Hgoal : port_fd (watcher (final (consumeNotify ans s))) = port_fd (watcher s)
      ∧ root_path (root (final (consumeNotify ans s))) = root_path (root s)
      ∧ (cancelled (root s) = true →
         cancelled (root (final (consumeNotify ans s))) = true)
      ∧ (∀ k f, port_files (watcher (final (consumeNotify ans s))) !! k = Some f →
           port_files (watcher s) !! k = Some f
           ∨ (name f = k ∧ fo_name (port_file f) = k))).
    { repeat split; try done.
      - intros Hs. by rewrite Hc, Hs.
      - intros k f Hk. left. rewrite Hfiles in Hk.
        by apply forget_lookup_Some in Hk. }
    by destruct (consumeNotify ans s).
Qed.

Lemma run_ops_cons o rest h :
  run_ops (o :: rest) h =
    match step o h with
    | HReturned _ h' => run_ops rest h'
    | HAborted h' => HAborted h'
    end.
Proof. cbn [run_ops]. hrun. by destruct (step o h). Qed.

(** A relation between machines that every step respects holds along
    every sequence of calls. *)
Lemma run_ops_respects (R : machine → machine → Prop) :
  (∀ s, R s s) →
  (∀ s1 s2 s3, R s1 s2 → R s2 s3 → R s1 s3) →
  (∀ o h, R (mach h) (mach (hfinal (step o h)))) →
  ∀ ops h, R (mach h) (mach (hfinal (run_ops ops h))).
Proof.
  intros Hrefl Htrans Hstep ops.
  induction ops as [|o rest IH]; intros h; [apply Hrefl|].
  rewrite run_ops_cons. specialize (Hstep o h).
  destruct (step o h) as [[] h'|h']; cbn in *; [|done].
  eapply Htrans; [exact Hstep|apply IH].
Qed.

(** X9. Along any sequence of calls of [do_watch], [startWatchFile],
    [startWatchDir] and [consumeNotify] the descriptor of the port and the
    root path never change, and a root that is cancelled stays
    cancelled. *)
Theorem run_ops_keeps_port_and_root ops h :
  let s := mach h in
  let s' := mach (hfinal (run_ops ops h)) in
  port_fd (watcher s') = port_fd (watcher s)
  ∧ root_path (root s') = root_path (root s)
  ∧ (cancelled (root s) = true → cancelled (root s') = true).
Proof.
  cbv zeta.
  apply (run_ops_respects (λ s s',
    port_fd (watcher s') = port_fd (watcher s)
    ∧ root_path (root s') = root_path (root s)
    ∧ (cancelled (root s) = true → cancelled (root s') = true))).
  - done.
  - intros s1 s2 s3 (Ha & Hb & Hc) (Ha' & Hb' & Hc').
    repeat split; [congruence|congruence|auto].
  - intros o h'. destruct (step_shape o h') as (Ha & Hb & Hc & _). done.
Qed.

(** X10. When every entry of the registry is filed under the name its
    token carries, this is still so after any sequence of calls; so the
    deletion by [f->name] in the loop of [consumeNotify] removes the entry
    of the very token that was registered. *)
Theorem run_ops_keeps_well_keyed ops h :
  well_keyed (port_files (watcher (mach h))) →
  well_keyed (port_files (watcher (mach (hfinal (run_ops ops h))))).
Proof.
  apply (run_ops_respects (λ s s',
    well_keyed (port_files (watcher s)) → well_keyed (port_files (watcher s')))).
  - done.
  - auto.
  - intros o h' Hwk k f Hk.
    destruct (step_shape o h') as (_ & _ & _ & Hfiles).
    destruct (Hfiles k f Hk) as [Hold|Hnew]; [by apply Hwk|done].
Qed.

(** X11. [initNew] returns true exactly when the watcher could be
    allocated and [port_create] did not answer -1.  It hands over a
    watcher exactly when it returns true, and writes an error message
    exactly when it returns false.  The watcher handed over holds the
    descriptor [port_create] returned, marked close-on-exec, and an empty
    registry. *)
Theorem initNew_result env r :
  let res := initNew env r in
  (init_ok res = true ↔ make_unique_ok env = true ∧ port_create_ret env ≠ (-1)%Z)
  ∧ (init_ok res = true ↔ is_Some (init_watcher res))
  ∧ (init_ok res = false ↔ is_Some (init_errmsg res))
  ∧ (∀ w, init_watcher res = Some w →
       port_fd w = port_create_ret env
       ∧ port_files w = ∅
       ∧ Call_w_set_cloexec (port_create_ret env) ∈ init_calls res).
Proof.
  cbv zeta. unfold initNew.
  destruct (make_unique_ok env); cbn; [case_decide as Hfd; cbn in *|].
  - split_and!; [intuition congruence|split; [done|by intros [? ?]]| |done].
    split; [by eexists|done].
  - split_and!; [intuition congruence|split; [by eexists|done]| |].
    + split; [done|by intros [? ?]].
    + intros w [= <-]. split_and!; [done|done|].
      apply list_elem_of_In. cbn. auto.
  - split_and!; [intuition congruence|split; [done|by intros [? ?]]| |done].
    split; [by eexists|done].
Qed.

(** X12. When [port_create] fails, [initNew] reports the root path and
    the error number in its message, logs the message as an error,
    destroys the watcher it had built, which closes the descriptor -1, and
    never marks a descriptor close-on-exec. *)
Theorem initNew_port_create_failure env r :
  make_unique_ok env = true →
  port_create_ret env = (-1)%Z →
  let res := initNew env r in
  let m := Err_port_create (root_path r) (port_create_errno env) in
  init_ok res = false
  ∧ init_watcher res = None
  ∧ init_errmsg res = Some m
  ∧ init_calls res =
      [Call_pthread_mutex_init; Call_w_ht_new (hint_num_dirs env); Call_port_create;
       Call_w_log W_LOG_ERR (Log_errmsg m);
       Call_close (-1); Call_w_ht_free; Call_pthread_mutex_destroy].
Proof.
  intros Hm Hfd. cbv zeta. unfold initNew, PortFSWatcher_dtor.
  rewrite Hm. cbn. rewrite decide_True by done. cbn. by rewrite Hfd.
Qed.

(** X13. The descriptor that [initNew] obtained and marked
    close-on-exec is the one the destructor closes, whatever calls were
    made on the watcher in between. *)
Theorem initNew_then_dtor_closes_port env r w ops :
  init_watcher (initNew env r) = Some w →
  Call_w_set_cloexec (port_create_ret env) ∈ init_calls (initNew env r)
  ∧ PortFSWatcher_dtor
      (watcher (mach (hfinal (run_ops ops (boot w (root_path r)))))) =
    [Call_close (port_create_ret env); Call_w_ht_free; Call_pthread_mutex_destroy].
Proof.
  intros Hw.
  assert (Hfd : port_fd w = port_create_ret env ∧
                Call_w_set_cloexec (port_create_ret env) ∈ init_calls (initNew env r)).
  { revert Hw. unfold initNew. destruct (make_unique_ok env); cbn; [|done].
    case_decide; cbn; [done|]. intros [= <-]. split; [done|].
    apply list_elem_of_In. cbn. auto. }
  destruct Hfd as [Hfd Hin]. split; [done|].
  pose proof (run_ops_respects (λ s s', port_fd (watcher s') = port_fd (watcher s)))
    as Hkeep.
  unfold PortFSWatcher_dtor. rewrite Hkeep.
  - cbn. by rewrite Hfd.
  - done.
  - congruence.
  - intros o h'. by destruct (step_shape o h') as (? & _).
Qed.

(** X14. [startWatchFile] arms the path joined from the directory of the
    file and the name of the file, with the [stat] of the file: it returns
    true exactly when the joined name could be allocated and the registry
    it leaves holds an entry for the joined path.  When the name cannot be
    allocated it returns false and the machine is as before. *)
Theorem startWatchFile_result name_ok env file s :
  ∃ b s',
    startWatchFile name_ok env file s = Returned b s'
    ∧ (b = true ↔
         name_ok = true
         ∧ is_Some (port_files (watcher s') !!
                      w_string_path_cat (Tree.path (Tree.parent file)) (Tree.name file)))
    ∧ (name_ok = true →
       startWatchFile name_ok env file s =
         do_watch env (w_string_path_cat (Tree.path (Tree.parent file)) (Tree.name file))
           (Tree.st file) s)
    ∧ (name_ok = false → b = false ∧ s' = s).
Proof.
  unfold startWatchFile. destruct name_ok.
  - destruct (do_watch_sound env
                (w_string_path_cat (Tree.path (Tree.parent file)) (Tree.name file))
                (Tree.st file) s) as (b & s' & Hrun & Hiff).
    exists b, s'. split; [done|]. split; [|done].
    rewrite Hiff. split; [done|]. by intros [_ ?].
  - exists false, s. split; [done|]. split; [|done].
    split; [done|]. by intros [? _].
Qed.

(** X15. [startWatchDir] returns, and it returns the handle of the
    directory exactly when the directory could be opened, [fstat] on it
    succeeded and the registry it leaves holds an entry for the full path
    of the directory; in every other case it returns no handle. *)
Theorem startWatchDir_result env dir t p h :
  ∃ r h',
    startWatchDir env dir t p h = HReturned r h'
    ∧ (∀ osdir, r = Some osdir ↔
         opendir_ret env = Some osdir
         ∧ is_Some (fstat_ret env)
         ∧ is_Some (port_files (watcher (mach h')) !! w_dir_copy_full_path dir)).
Proof.
  rewrite startWatchDir_eq.
  destruct (opendir_ret env) as [o|].
  - destruct (fstat_ret env) as [st|].
    + destruct (do_watch_sound (dir_arm env) (w_dir_copy_full_path dir) st (mach h))
        as (b & s' & -> & Hiff).
      destruct b.
      * eexists _, _. split; [done|]. intros osdir. cbn.
        destruct Hiff as [Hsome _]. specialize (Hsome eq_refl).
        split; [by intros [= <-]|]. by intros ([= <-] & _).
      * eexists _, _. split; [done|]. intros osdir. cbn.
        split; [done|]. intros (_ & _ & Hsome).
        destruct Hiff as [_ Hback]. by specialize (Hback Hsome).
    + eexists _, _. split; [done|]. intros osdir.
      split; [done|]. by intros (_ & [? ?] & _).
  - eexists _, _. split; [done|]. intros osdir.
    split; [done|]. by intros (? & _).
Qed.


(** X17. When the directory cannot be opened or [fstat] on it fails,
    [startWatchDir] returns no handle without arming anything: the
    watcher is as before and the port is not called.  A failed open is
    handed to [handle_open_errno] as "opendir" with the error number and
    nothing else is called; a failed [fstat] is logged as an error with
    the path and the error number, schedules a recrawl with the reason
    "fstat failed" and then closes the handle. *)
Theorem startWatchDir_failure_before_arming env dir t p h :
  opendir_ret env = None ∨ fstat_ret env = None →
  ∃ h' new,
    startWatchDir env dir t p h = HReturned None h'
    ∧ watcher (mach h') = watcher (mach h)
    ∧ syscalls (mach h') = syscalls (mach h)
    ∧ trace h' = trace h ++ new
    ∧ (opendir_ret env = None →
       new = [Call_w_dir_open p;
              Call_handle_open_errno dir t "opendir" (opendir_errno env)])
    ∧ (∀ osdir, opendir_ret env = Some osdir →
       new = [Call_w_dir_open p; Call_fstat osdir;
              Call_w_log W_LOG_ERR (Log_fstat_failed p (fstat_errno env));
              Call_w_root_schedule_recrawl "fstat failed";
              Call_w_dir_close osdir]).
Proof.
  intros Hfail. rewrite startWatchDir_eq.
  destruct (opendir_ret env) as [o|].
  - destruct Hfail as [?| ->]; [done|].
    eexists _, _. split; [done|]. cbn. split_and!; try done.
    by intros osdir [= <-].
  - eexists _, _. split; [done|]. cbn. split_and!; done.
Qed.

(** *** Calls that do not return *)

Lemma step_returns_iff o h :
  (∃ h', step o h = HReturned tt h') ↔ benign o.
Proof.
  destruct h as [s tr].
  destruct o as [env nm st|ok env file|env dir t p|[queue|err]]; cbn [benign].
  - split; [done|]. intros _. unfold step. hrun. cbn.
    destruct (do_watch_sound env nm st s) as (b & s' & -> & _). by eexists.
  - split; [done|]. intros _. unfold step, startWatchFile. hrun. cbn.
    destruct ok; [|by eexists].
    destruct (do_watch_sound env
                (w_string_path_cat (Tree.path (Tree.parent file)) (Tree.name file))
                (Tree.st file) s) as (b & s' & -> & _). by eexists.
  - split; [done|]. intros _. unfold step. hrun. rewrite startWatchDir_eq. cbn.
    destruct (opendir_ret env) as [osdir|]; [|by eexists].
    destruct (fstat_ret env) as [st|]; [|by eexists].
    destruct (do_watch_sound (dir_arm env) (w_dir_copy_full_path dir) st s)
      as (b & s' & -> & _).
    destruct b; by eexists.
  - split; [done|]. intros _. unfold step. hrun. cbn.
    rewrite consumeNotify_events. cbn zeta. case_decide; by eexists.
  - unfold step. hrun. cbn. rewrite consumeNotify_error. cbn zeta.
    case_decide; split; try done; try (by eexists); by intros [? ?].
Qed.

(** X18. A sequence of calls runs to its end exactly when none of its
    [consumeNotify] calls meets a [port_getn] failure other than EINTR:
    [do_watch], [startWatchFile] and [startWatchDir] always return, and so
    does [consumeNotify] whenever events are handed out or the wait was
    interrupted. *)
Theorem run_ops_returns_iff_benign ops h :
  (∃ h', run_ops ops h = HReturned tt h') ↔ Forall benign ops.
Proof.
  revert h. induction ops as [|o rest IH]; intros h.
  - split; [by constructor|]. intros _. by exists h.
  - rewrite run_ops_cons, Forall_cons, <- (step_returns_iff o h).
    split.
    + intros [h' Hrun]. destruct (step o h) as [[] h1|h1]; [|done].
      split; [by eexists|]. apply (IH h1). by exists h'.
    + intros [[h1 ->] Hrest]. by apply IH.
Qed.

(** X19. Along any sequence of calls the collection only grows, and
    every record added carries the flags
    W_PENDING_RECURSIVE|W_PENDING_VIA_NOTIFY; arming never pushes. *)
Theorem run_ops_pushes_recursive_notify ops h :
  ∃ new,
    coll (mach (hfinal (run_ops ops h))) = coll (mach h) ++ new
    ∧ Forall (λ r, flags r = Z.lor W_PENDING_RECURSIVE W_PENDING_VIA_NOTIFY) new
    ∧ (Forall (λ o, ∀ ans, o ≠ Op_consumeNotify ans) ops → new = []).
Proof.
  revert h. induction ops as [|o rest IH]; intros h.
  - exists []. cbn. by rewrite app_nil_r.
  - assert (Hstep : ∃ new,
      coll (mach (hfinal (step o h))) = coll (mach h) ++ new
      ∧ Forall (λ r, flags r = Z.lor W_PENDING_RECURSIVE W_PENDING_VIA_NOTIFY) new
      ∧ ((∀ ans, o ≠ Op_consumeNotify ans) → new = [])).
    { destruct h as [s tr].
      assert (Harm : ∀ env nm st, ∃ new,
        coll (final (do_watch env nm st s)) = coll s ++ new
        ∧ Forall (λ r, flags r = Z.lor W_PENDING_RECURSIVE W_PENDING_VIA_NOTIFY) new
        ∧ new = []).
      { intros env nm st.
        destruct (do_watch_shape env nm st s) as (b & s' & -> & _ & Hcoll & _).
        exists []. cbn. by rewrite Hcoll, app_nil_r. }
      destruct o as [env nm st|ok env file|env dir t p|ans].
      - destruct (Harm env nm st) as (new & Hc & Hf & Hn).
        exists new. unfold step. hrun. cbn.
        by destruct (do_watch env nm st s).
      - unfold step, startWatchFile. destruct ok.
        + destruct (Harm env (w_string_path_cat (Tree.path (Tree.parent file))
                                (Tree.name file)) (Tree.st file))
            as (new & Hc & Hf & Hn).
          exists new. hrun. cbn. by destruct (do_watch _ _ _ s).
        + exists []. hrun. cbn. by rewrite app_nil_r.
      - unfold step. hrun. rewrite startWatchDir_eq. cbn.
        destruct (opendir_ret env) as [osdir|];
          [|exists []; cbn; by rewrite app_nil_r].
        destruct (fstat_ret env) as [st|];
          [|exists []; cbn; by rewrite app_nil_r].
        destruct (Harm (dir_arm env) (w_dir_copy_full_path dir) st)
          as (new & Hc & Hf & Hn).
        exists new. by destruct (do_watch _ _ _ s) as [[|] s'|s'].
      - exists (map (pending_of Indeterminate)
                  (processed (root_path (root s)) (retrieved ans))).
        unfold step. hrun. cbn. split_and!.
        + destruct ans as [queue|err].
          * rewrite <- consumeNotify_pushes. by destruct (consumeNotify _ s).
          * rewrite consumeNotify_error. cbn zeta. case_decide; cbn;
              by rewrite app_nil_r.
        + apply Forall_forall. intros r Hr.
          apply list_elem_of_fmap in Hr as (e & -> & _). done.
        + intros Hno. by destruct (Hno ans). }
    destruct Hstep as (new1 & Hc1 & Hf1 & Hn1).
    rewrite run_ops_cons.
    destruct (step o h) as [[] h1|h1] eqn:E; cbn in Hc1.
    + destruct (IH h1) as (new2 & Hc2 & Hf2 & Hn2).
      exists (new1 ++ new2). rewrite Hc2, Hc1, app_assoc.
      split; [done|]. split; [by apply Forall_app|].
      intros [Ho Hrest]%Forall_cons. by rewrite Hn1, Hn2.
    + exists new1. cbn. split; [done|]. split; [done|].
      intros [Ho _]%Forall_cons. by apply Hn1.
Qed.

End Tree_properties.

(** * The further properties on concrete inputs *)

(** X3 for a new path when [calloc] fails. *)
Lemma do_watch_allocation_failure_witness :
  port_files (watcher ex_machine) !! "/root/c" = None
  ∧ (calloc_ok ex_env_nomem = false ∨ ht_room ex_env_nomem = false)
  ∧ ∃ s', do_watch (H := illumos) ex_env_nomem "/root/c" ex_stat ex_machine
          = Returned false s'
      ∧ watcher s' = watcher ex_machine
      ∧ syscalls s' = syscalls ex_machine.
Proof.
  assert (Hnm : port_files (watcher ex_machine) !! "/root/c" = None)
    by (vm_compute; reflexivity).
  assert (Hfail : calloc_ok ex_env_nomem = false ∨ ht_room ex_env_nomem = false)
    by (left; reflexivity).
  split; [exact Hnm|]. split; [exact Hfail|].
  destruct (do_watch_allocation_failure (H := illumos) ex_env_nomem "/root/c" ex_stat
              ex_machine Hnm Hfail) as (s' & Hrun & Hw & _ & _ & Hsys & _).
  exists s'. split; [exact Hrun|]. split; [exact Hw|exact Hsys].
Defined.

(** X4 for the new path ["/root/c"]. *)
Lemma do_watch_fresh_token_witness :
  port_files (watcher ex_machine) !! "/root/c" = None
  ∧ calloc_ok ex_env_ok = true
  ∧ ht_room ex_env_ok = true
  ∧ associate_ret ex_env_ok = 0%Z
  ∧ ∃ s', do_watch (H := illumos) ex_env_ok "/root/c" ex_stat ex_machine
          = Returned true s'
      ∧ port_files (watcher s') !! "/root/c" = Some (ex_file "/root/c")
      ∧ size (port_files (watcher s')) = 4.
Proof.
  assert (Hnm : port_files (watcher ex_machine) !! "/root/c" = None)
    by (vm_compute; reflexivity).
  split; [exact Hnm|]. split; [reflexivity|]. split; [reflexivity|].
  split; [reflexivity|].
  destruct (do_watch_fresh_token (H := illumos) ex_env_ok "/root/c" ex_stat ex_machine
              Hnm eq_refl eq_refl eq_refl) as (s' & Hrun & Hfiles & Hsize & _).
  exists s'. split; [exact Hrun|]. split.
  - rewrite Hfiles. apply lookup_insert_eq.
  - rewrite Hsize. vm_compute. reflexivity.
Defined.

(** X8: ["/root/a"] is armed on the idle machine and reported modified. *)
Lemma arm_then_event_restores_registry_witness :
  port_files (watcher ex_idle) !! "/root/a" = None
  ∧ calloc_ok ex_env_ok = true
  ∧ ht_room ex_env_ok = true
  ∧ associate_ret ex_env_ok = 0%Z
  ∧ 1 ≤ WATCHMAN_BATCH_LIMIT (Headers := illumos)
  ∧ make_port_file true "/root/a" ex_stat = Some (ex_file "/root/a")
  ∧ root_lost (H := illumos) (root_path (root ex_idle)) (ex_event 0x2 "/root/a") = false
  ∧ ∃ s1 s2,
      do_watch (H := illumos) ex_env_ok "/root/a" ex_stat ex_idle = Returned true s1
      ∧ consumeNotify (H := illumos) (Getn_events [ex_event 0x2 "/root/a"]) s1
        = Returned true s2
      ∧ port_files (watcher s2) = port_files (watcher ex_idle).
Proof.
  assert (Hnm : port_files (watcher ex_idle) !! "/root/a" = None)
    by (vm_compute; reflexivity).
  assert (Hlim : 1 ≤ WATCHMAN_BATCH_LIMIT (Headers := illumos))
    by (vm_compute; lia).
  assert (Hf : make_port_file true "/root/a" ex_stat = Some (ex_file "/root/a"))
    by reflexivity.
  assert (Hev : root_lost (H := illumos) (root_path (root ex_idle))
                  (ex_event 0x2 "/root/a") = false) by (vm_compute; reflexivity).
  split; [exact Hnm|]. split; [reflexivity|]. split; [reflexivity|].
  split; [reflexivity|]. split; [exact Hlim|]. split; [exact Hf|].
  split; [exact Hev|].
  destruct (arm_then_event_restores_registry (H := illumos) ex_env_ok "/root/a" ex_stat
              0x2 (ex_file "/root/a") ex_idle Hnm eq_refl eq_refl eq_refl Hlim Hf Hev)
    as (s1 & s2 & Harm & Hdrain & Hfiles & _).
  exists s1, s2. split; [exact Harm|]. split; [exact Hdrain|exact Hfiles].
Defined.

(** X10 from the watcher that [initNew] hands over, whose registry is
    empty. *)
Lemma run_ops_keeps_well_keyed_witness :
  well_keyed (port_files (watcher (mach (boot ex_watcher "/root"))))
  ∧ well_keyed (port_files (watcher (mach (hfinal
      (run_ops (H := illumos) (P := slash_paths)
         (ex_ops (H := illumos) (P := slash_paths)) (boot ex_watcher "/root")))))).
Proof.
  assert (Hwk : well_keyed (port_files (watcher (mach (boot ex_watcher "/root"))))).
  { intros k f Hk. cbn in Hk. by rewrite lookup_empty in Hk. }
  split; [exact Hwk|].
  exact (run_ops_keeps_well_keyed (H := illumos) (P := slash_paths)
           (ex_ops (H := illumos) (P := slash_paths)) (boot ex_watcher "/root") Hwk).
Defined.

(** X12 when [port_create] fails with EMFILE. *)
Lemma initNew_port_create_failure_witness :
  make_unique_ok ex_init_emfile = true
  ∧ port_create_ret ex_init_emfile = (-1)%Z
  ∧ init_ok (initNew ex_init_emfile (root ex_idle)) = false
  ∧ init_errmsg (initNew ex_init_emfile (root ex_idle))
    = Some (Err_port_create "/root" 24).
Proof.
  split; [reflexivity|]. split; [reflexivity|].
  destruct (initNew_port_create_failure ex_init_emfile (root ex_idle) eq_refl eq_refl)
    as (Hok & _ & Hmsg & _).
  split; [exact Hok|exact Hmsg].
Defined.

(** X13: the descriptor 3 is closed after the calls of [ex_ops]. *)
Lemma initNew_then_dtor_closes_port_witness :
  init_watcher (initNew ex_init_ok (root ex_idle)) = Some ex_watcher
  ∧ PortFSWatcher_dtor
      (watcher (mach (hfinal
         (run_ops (H := illumos) (P := slash_paths)
            (ex_ops (H := illumos) (P := slash_paths)) (boot ex_watcher "/root"))))) =
    [Call_close 3; Call_w_ht_free; Call_pthread_mutex_destroy].
Proof.
  assert (Hw : init_watcher (initNew ex_init_ok (root ex_idle)) = Some ex_watcher)
    by reflexivity.
  split; [exact Hw|].
  exact (proj2 (initNew_then_dtor_closes_port (H := illumos) (P := slash_paths)
                  ex_init_ok (root ex_idle) ex_watcher
                  (ex_ops (H := illumos) (P := slash_paths)) Hw)).
Defined.


(** X17 when the directory cannot be opened (EACCES). *)
Lemma startWatchDir_failure_before_arming_witness :
  (opendir_ret ex_dir_eacces = None ∨ fstat_ret ex_dir_eacces = None)
  ∧ ∃ h',
      startWatchDir (H := illumos) (P := slash_paths) ex_dir_eacces ex_dir ex_now
        "/root/sub" (boot ex_watcher "/root") = HReturned None h'
      ∧ watcher (mach h') = ex_watcher
      ∧ trace h' = [Call_w_dir_open "/root/sub";
                    Call_handle_open_errno ex_dir ex_now "opendir" 13].
Proof.
  assert (Hfail : opendir_ret ex_dir_eacces = None ∨ fstat_ret ex_dir_eacces = None)
    by (left; reflexivity).
  split; [exact Hfail|].
  destruct (startWatchDir_failure_before_arming (H := illumos) (P := slash_paths)
              ex_dir_eacces ex_dir ex_now "/root/sub" (boot ex_watcher "/root") Hfail)
    as (h' & new & Hrun & Hw & _ & Htrace & Hopen & _).
  exists h'. split; [exact Hrun|]. split; [exact Hw|].
  rewrite Htrace, (Hopen eq_refl). reflexivity.
Defined.

(** The sequence [ex_ops] on illumos: the directory and then the file
    are armed, the event of the file removes its entry, the last call
    arms the file afresh; the run makes three associations and one
    retrieval, and keeps handle 7 open. *)
Example ex_ops_run :
  let o := run_ops (H := illumos) (P := slash_paths)
             (ex_ops (H := illumos) (P := slash_paths)) (boot ex_watcher "/root") in
  hresult o = Some tt
  ∧ map fst (map_to_list (port_files (watcher (mach (hfinal o)))))
    ≡ₚ ["/root/sub"; "/root/sub/f.txt"]
  ∧ map path (coll (mach (hfinal o))) = ["/root/sub/f.txt"]
  ∧ length (syscalls (mach (hfinal o))) = 4
  ∧ closes_of 7 (trace (hfinal o)) = 0.
Proof.
  cbv zeta. split_and!; try (vm_compute; reflexivity).
  vm_compute. apply Permutation_refl || apply perm_swap.
Qed.
